(** * The streaming chat client (ao-chat-boot/chat.js)

    A shallow embedding of [class ChatApp]: the conversation log, the
    request/stream life cycle of [sendMessage] and [streamAIResponse], the
    per-chunk record loop, and the code-block pass [highlightCodeBlocks].

    JavaScript strings are sequences of UTF-16 code units; they are modelled
    as lists of [N].  The browser built-ins the source calls ([String]
    methods, [JSON.parse], property access, [||], [+=]) are modelled after
    ECMAScript; the two page libraries ([marked], [hljs]) and the conversion
    of numbers are taken as an interface. *)

From Stdlib Require Import String Ascii.
From Stdlib Require Import List NArith Bool Arith Lia Wf_nat.
Import ListNotations.
Local Open Scope N_scope.
Local Open Scope list_scope.

Set Implicit Arguments.

(** ** JavaScript strings *)

Definition jsstring := list N.

(** A source-level string literal, as code units. *)
Definition js (s : string) : jsstring :=
  map N_of_ascii (list_ascii_of_string s).

(** The same, with the double quote written as an apostrophe: the notation
    used below for JSON text. *)
Definition jq (s : string) : jsstring :=
  map (fun c => if c =? 39 then 34 else c) (js s).

Fixpoint jsstring_eqb (a b : jsstring) : bool :=
  match a, b with
  | [], [] => true
  | x :: a', y :: b' => (x =? y) && jsstring_eqb a' b'
  | _, _ => false
  end.

(** [s.startsWith(p)] *)
Fixpoint startsWith (s p : jsstring) {struct p} : bool :=
  match p with
  | [] => true
  | y :: p' =>
      match s with
      | [] => false
      | x :: s' => (x =? y) && startsWith s' p'
      end
  end.

(** [s.substring(n)] with a single argument: the code units from index [n]
    on (the empty string when [n] is past the end). *)
Definition substring_from (n : nat) (s : jsstring) : jsstring := skipn n s.

(** WhiteSpace and LineTerminator code units, the set [String.prototype.trim]
    strips. *)
Definition is_js_whitespace (c : N) : bool :=
  (c =? 9) || (c =? 10) || (c =? 11) || (c =? 12) || (c =? 13) || (c =? 32)
  || (c =? 160) || (c =? 5760) || ((8192 <=? c) && (c <=? 8202))
  || (c =? 8232) || (c =? 8233) || (c =? 8239) || (c =? 8287)
  || (c =? 12288) || (c =? 65279).

Fixpoint trimStart (s : jsstring) : jsstring :=
  match s with
  | [] => []
  | c :: r => if is_js_whitespace c then trimStart r else s
  end.

(** [s.trim()] *)
Definition trim (s : jsstring) : jsstring :=
  rev (trimStart (rev (trimStart s))).

(** [chunk.split('\n\n')]: left-to-right, non-overlapping occurrences of the
    two-line-feed separator; the result always has at least one piece. *)
Fixpoint split_nn (s : jsstring) : list jsstring :=
  match s with
  | [] => [[]]
  | c :: r =>
      match r with
      | d :: r' =>
          if (c =? 10) && (d =? 10) then [] :: split_nn r'
          else match split_nn r with
               | cur :: more => (c :: cur) :: more
               | [] => [[c]]
               end
      | [] => [[c]]
      end
  end.

(** [s.split(' ')[0]]: the code units before the first space. *)
Fixpoint first_word (s : jsstring) : jsstring :=
  match s with
  | [] => []
  | c :: r => if c =? 32 then [] else c :: first_word r
  end.

(** [s.replace(p, '')] with a string pattern: the first occurrence of [p] is
    removed. *)
Fixpoint remove_first (p s : jsstring) {struct s} : jsstring :=
  if startsWith s p then skipn (length p) s
  else match s with
       | [] => []
       | c :: r => c :: remove_first p r
       end.

(** ** JavaScript values and [JSON.parse] *)

(** The values [JSON.parse] produces, plus [undefined], which property
    access yields.  A number is kept as its literal; its conversions are part
    of the [Browser] interface below.  An object keeps its members in source
    order; a later duplicate key wins on lookup. *)
#[warnings="-register-all"]
Inductive JsVal : Type :=
| JUndefined
| JNull
| JBool (b : bool)
| JNum (literal : jsstring)
| JStr (s : jsstring)
| JArr (elems : list JsVal)
| JObj (props : list (jsstring * JsVal)).

(** JSON insignificant whitespace: space, tab, line feed, carriage return. *)
Definition is_json_ws (c : N) : bool :=
  (c =? 32) || (c =? 9) || (c =? 10) || (c =? 13).

Fixpoint skip_ws (s : jsstring) : jsstring :=
  match s with
  | [] => []
  | c :: r => if is_json_ws c then skip_ws r else s
  end.

Definition is_digit (c : N) : bool := (48 <=? c) && (c <=? 57).

Definition hex_val (c : N) : option N :=
  if is_digit c then Some (c - 48)
  else if (97 <=? c) && (c <=? 102) then Some (c - 87)
  else if (65 <=? c) && (c <=? 70) then Some (c - 55)
  else None.

Definition hex4 (a b c d : N) : option N :=
  match hex_val a, hex_val b, hex_val c, hex_val d with
  | Some x, Some y, Some z, Some w => Some (((x * 16 + y) * 16 + z) * 16 + w)
  | _, _, _, _ => None
  end.

(** The single-character escapes of a JSON string. *)
Definition unescape (e : N) : option N :=
  if e =? 34 then Some 34
  else if e =? 92 then Some 92
  else if e =? 47 then Some 47
  else if e =? 98 then Some 8
  else if e =? 102 then Some 12
  else if e =? 110 then Some 10
  else if e =? 114 then Some 13
  else if e =? 116 then Some 9
  else None.

(** The characters of a string literal after its opening quote, up to and
    including the closing quote. *)
Fixpoint parse_chars (s : jsstring) : option (jsstring * jsstring) :=
  match s with
  | [] => None
  | c :: r =>
      if c =? 34 then Some ([], r)
      else if c =? 92 then
        match r with
        | [] => None
        | e :: r1 =>
            if e =? 117 then
              match r1 with
              | h1 :: h2 :: h3 :: h4 :: r2 =>
                  match hex4 h1 h2 h3 h4 with
                  | Some u =>
                      match parse_chars r2 with
                      | Some (str, rest) => Some (u :: str, rest)
                      | None => None
                      end
                  | None => None
                  end
              | _ => None
              end
            else
              match unescape e with
              | Some u =>
                  match parse_chars r1 with
                  | Some (str, rest) => Some (u :: str, rest)
                  | None => None
                  end
              | None => None
              end
        end
      else if c <? 32 then None
      else
        match parse_chars r with
        | Some (str, rest) => Some (c :: str, rest)
        | None => None
        end
  end.

(** The JSON number grammar as an automaton: an optional minus; a zero, or
    a non-zero digit followed by digits; an optional fraction (a dot and at
    least one digit); an optional exponent (e or E, an optional sign, at
    least one digit). *)
Inductive NumState : Type :=
| NStart | NMinus | NZero | NInt | NDot | NFrac | NE | NESign | NExp.

Definition num_accepting (st : NumState) : bool :=
  match st with
  | NZero | NInt | NFrac | NExp => true
  | _ => false
  end.

Definition num_step (st : NumState) (c : N) : option NumState :=
  match st with
  | NStart =>
      if c =? 45 then Some NMinus
      else if c =? 48 then Some NZero
      else if is_digit c then Some NInt else None
  | NMinus =>
      if c =? 48 then Some NZero
      else if is_digit c then Some NInt else None
  | NZero =>
      if c =? 46 then Some NDot
      else if (c =? 101) || (c =? 69) then Some NE else None
  | NInt =>
      if is_digit c then Some NInt
      else if c =? 46 then Some NDot
      else if (c =? 101) || (c =? 69) then Some NE else None
  | NDot => if is_digit c then Some NFrac else None
  | NFrac =>
      if is_digit c then Some NFrac
      else if (c =? 101) || (c =? 69) then Some NE else None
  | NE =>
      if (c =? 43) || (c =? 45) then Some NESign
      else if is_digit c then Some NExp else None
  | NESign => if is_digit c then Some NExp else None
  | NExp => if is_digit c then Some NExp else None
  end.

(** The longest number literal at the head of the input, and what follows. *)
Fixpoint lex_number (st : NumState) (s : jsstring)
  : option (jsstring * jsstring) :=
  match s with
  | [] => if num_accepting st then Some ([], []) else None
  | c :: r =>
      match num_step st c with
      | Some st' =>
          match lex_number st' r with
          | Some (lx, rest) => Some (c :: lx, rest)
          | None => None
          end
      | None => if num_accepting st then Some ([], s) else None
      end
  end.

(** One JSON value at the head of the input (no leading whitespace), and
    what follows it; [members] and [elements] read what comes after an
    opening brace or bracket. *)
Definition value_step
  (members : jsstring -> option (list (jsstring * JsVal) * jsstring))
  (elements : jsstring -> option (list JsVal * jsstring))
  (s : jsstring) : option (JsVal * jsstring) :=
  match s with
  | [] => None
  | c :: r =>
      if c =? 123 then
        match skip_ws r with
        | [] => None
        | d :: r' =>
            if d =? 125 then Some (JObj [], r')
            else
              match members r with
              | Some (kvs, rest) => Some (JObj kvs, rest)
              | None => None
              end
        end
      else if c =? 91 then
        match skip_ws r with
        | [] => None
        | d :: r' =>
            if d =? 93 then Some (JArr [], r')
            else
              match elements r with
              | Some (vs, rest) => Some (JArr vs, rest)
              | None => None
              end
        end
      else if c =? 34 then
        match parse_chars r with
        | Some (str, rest) => Some (JStr str, rest)
        | None => None
        end
      else if c =? 116 then
        if startsWith r (js "rue") then Some (JBool true, skipn 3 r) else None
      else if c =? 102 then
        if startsWith r (js "alse") then Some (JBool false, skipn 4 r)
        else None
      else if c =? 110 then
        if startsWith r (js "ull") then Some (JNull, skipn 3 r) else None
      else
        match lex_number NStart s with
        | Some (lx, rest) => Some (JNum lx, rest)
        | None => None
        end
  end.

(** The elements of an array after its opening bracket, up to and including
    the closing bracket. *)
Definition elements_step
  (value : jsstring -> option (JsVal * jsstring))
  (elements : jsstring -> option (list JsVal * jsstring))
  (s : jsstring) : option (list JsVal * jsstring) :=
  match value (skip_ws s) with
  | None => None
  | Some (v, r) =>
      match skip_ws r with
      | [] => None
      | c :: r' =>
          if c =? 44 then
            match elements r' with
            | Some (vs, rest) => Some (v :: vs, rest)
            | None => None
            end
          else if c =? 93 then Some ([v], r')
          else None
      end
  end.

(** The members of an object after its opening brace, up to and including
    the closing brace. *)
Definition members_step
  (value : jsstring -> option (JsVal * jsstring))
  (members : jsstring -> option (list (jsstring * JsVal) * jsstring))
  (s : jsstring) : option (list (jsstring * JsVal) * jsstring) :=
  match skip_ws s with
  | [] => None
  | q :: r0 =>
      if q =? 34 then
        match parse_chars r0 with
        | None => None
        | Some (k, r1) =>
            match skip_ws r1 with
            | [] => None
            | colon :: r2 =>
                if colon =? 58 then
                  match value (skip_ws r2) with
                  | None => None
                  | Some (v, r3) =>
                      match skip_ws r3 with
                      | [] => None
                      | c :: r4 =>
                          if c =? 44 then
                            match members r4 with
                            | Some (kvs, rest) => Some ((k, v) :: kvs, rest)
                            | None => None
                            end
                          else if c =? 125 then Some ([(k, v)], r4)
                          else None
                      end
                  end
                else None
            end
        end
      else None
  end.

(** The recursive descent.  [fuel] bounds the depth of the calls;
    [JSON_parse] supplies enough of it (lemma [parse_value_fuel_enough]). *)
Fixpoint parse_value (fuel : nat) (s : jsstring) {struct fuel}
  : option (JsVal * jsstring) :=
  match fuel with
  | O => None
  | S f => value_step (parse_members f) (parse_elements f) s
  end

with parse_elements (fuel : nat) (s : jsstring) {struct fuel}
  : option (list JsVal * jsstring) :=
  match fuel with
  | O => None
  | S f => elements_step (parse_value f) (parse_elements f) s
  end

with parse_members (fuel : nat) (s : jsstring) {struct fuel}
  : option (list (jsstring * JsVal) * jsstring) :=
  match fuel with
  | O => None
  | S f => members_step (parse_value f) (parse_members f) s
  end.

(** [JSON.parse(text)]: [None] stands for the thrown [SyntaxError]. *)
Definition JSON_parse (s : jsstring) : option JsVal :=
  match parse_value (2 * List.length s + 1) (skip_ws s) with
  | Some (v, r) =>
      match skip_ws r with
      | [] => Some v
      | _ :: _ => None
      end
  | None => None
  end.

(** ** The lexical shape of JSON text *)

(** Where a left-to-right reading of JSON text stands: outside a string
    literal, inside one, or just after a backslash inside one. *)
Inductive LexState : Type :=
| LOut
| LIn
| LEsc.

(** The code units JSON text has outside its string literals: whitespace,
    digits, brackets, braces, comma, colon, the marks of a number, and the
    letters of [true], [false] and [null]. *)
Definition structural (c : N) : bool :=
  is_json_ws c || is_digit c
  || existsb (N.eqb c)
       [123; 125; 91; 93; 44; 58; 45; 43; 46; 101; 69;
        116; 114; 117; 102; 97; 108; 115; 110].

Definition scan_step (st : LexState) (c : N) : option LexState :=
  match st with
  | LOut =>
      if c =? 34 then Some LIn
      else if structural c then Some LOut else None
  | LIn =>
      if c =? 34 then Some LOut
      else if c =? 92 then Some LEsc else Some LIn
  | LEsc => Some LIn
  end.

Fixpoint scan (st : LexState) (s : jsstring) : option LexState :=
  match s with
  | [] => Some st
  | c :: r =>
      match scan_step st c with
      | Some st' => scan st' r
      | None => None
      end
  end.

(** The text ends with JSON whitespace. *)
Definition ends_in_json_ws (s : jsstring) : bool :=
  match rev s with
  | [] => false
  | c :: _ => is_json_ws c
  end.

Definition is_number (v : JsVal) : bool :=
  match v with
  | JNum _ => true
  | _ => false
  end.

(** A reader of one item is stable under extension of its input when what it
    read and what it left do not change if more text is appended; for a
    value this is asked only when the reader stopped before the end of its
    input or read something other than a number. *)
Definition stable_value (value : jsstring -> option (JsVal * jsstring))
  : Prop :=
  forall s v r y,
    value s = Some (v, r) ->
    r <> [] \/ is_number v = false ->
    value (s ++ y) = Some (v, r ++ y).

Definition stable_list {A : Type} (items : jsstring -> option (A * jsstring))
  : Prop :=
  forall s vs r y, items s = Some (vs, r) -> items (s ++ y) = Some (vs, r ++ y).

(** A reader is well scanned when the text it consumes, read from outside a
    string literal, ends outside one. *)
Definition well_scanned {A : Type} (item : jsstring -> option (A * jsstring))
  : Prop :=
  forall s v r,
    item s = Some (v, r) ->
    exists c, s = c ++ r /\ c <> [] /\ scan LOut c = Some LOut.

(** One reader succeeds wherever another does, with the same result. *)
Definition refines {A : Type} (p q : jsstring -> option A) : Prop :=
  forall s x, p s = Some x -> q s = Some x.

(** ** The rendered document *)

(** A [<code>] element: its class attribute, its text, its markup, and the
    class attributes of the elements that markup holds (the descendants of
    the [<code>], which a selector run on the [<pre>] also visits). *)
Record CodeElem : Type := mkCode {
  className : jsstring;
  textContent : jsstring;
  innerHTML : jsstring;
  inner_classes : list jsstring
}.

(** An element the code-block pass appends to a [<pre>]. *)
Record Elem : Type := mkElem {
  e_tag : jsstring;
  e_className : jsstring;
  e_textContent : jsstring
}.

(** A fenced region in the shape [marked] renders it: a [<pre>] with one
    [<code>] child, followed by what was appended to the [<pre>] after it.
    Other arrangements ([<code>] deeper below a [<pre>], or several in one)
    are not described. *)
Record PreElem : Type := mkPre {
  code : CodeElem;
  appended : list Elem
}.

(** The content of a message bubble as the code-block pass sees it: fenced
    code regions, and everything else. *)
Inductive Block : Type :=
| Fence (p : PreElem)
| Prose (html : jsstring).

(** ** What the page supplies

    [marked.parse] and [hljs.highlightElement] come from scripts the page
    loads; [Number_truthy] and [Number_toString] are the conversions of a
    number (given by its JSON literal) to a boolean and to a string. *)
Class Browser : Type := {
  marked_parse : jsstring -> list Block;
  hljs_highlightElement : CodeElem -> CodeElem;
  Number_truthy : jsstring -> bool;
  Number_toString : jsstring -> jsstring
}.

(** ** Expressions on values *)

(** The outcome of an expression that may throw a [TypeError]. *)
Inductive Completion (A : Type) : Type :=
| Normal (a : A)
| Throw.
Arguments Throw {A}.

Definition bindC {A B : Type} (c : Completion A) (k : A -> Completion B)
  : Completion B :=
  match c with
  | Normal a => k a
  | Throw => Throw
  end.

Notation "x <- c ;; k" := (bindC c (fun x => k))
  (at level 61, c at next level, right associativity).

(** An own property of an object; of duplicate keys the last one counts. *)
Fixpoint own_prop (k : jsstring) (props : list (jsstring * JsVal))
  : option JsVal :=
  match props with
  | [] => None
  | (k', v) :: rest =>
      match own_prop k rest with
      | Some w => Some w
      | None => if jsstring_eqb k k' then Some v else None
      end
  end.

(** [v.k] for the property names the source reads ([choices], [delta],
    [content]), none of which a prototype defines: [undefined] unless [v] is
    an object with that own property; a [TypeError] on [undefined] and
    [null]. *)
Definition get_member (v : JsVal) (k : jsstring) : Completion JsVal :=
  match v with
  | JUndefined | JNull => Throw
  | JObj props =>
      Normal (match own_prop k props with Some w => w | None => JUndefined end)
  | _ => Normal JUndefined
  end.

(** [v[0]] *)
Definition get_index0 (v : JsVal) : Completion JsVal :=
  match v with
  | JUndefined | JNull => Throw
  | JArr (x :: _) => Normal x
  | JStr (c :: _) => Normal (JStr [c])
  | JObj props =>
      Normal (match own_prop (js "0") props with
              | Some w => w
              | None => JUndefined
              end)
  | _ => Normal JUndefined
  end.

(** [v?.k] *)
Definition opt_member (v : JsVal) (k : jsstring) : Completion JsVal :=
  match v with
  | JUndefined | JNull => Normal JUndefined
  | _ => get_member v k
  end.

Section Values.
Context {B : Browser}.

(** ToBoolean *)
Definition truthy (v : JsVal) : bool :=
  match v with
  | JUndefined | JNull => false
  | JBool b => b
  | JNum l => Number_truthy l
  | JStr s => negb (jsstring_eqb s [])
  | JArr _ | JObj _ => true
  end.

(** ToString, as string concatenation applies it to its right operand.  An
    array is joined with commas, [undefined] and [null] elements giving the
    empty string; a plain object gives [[object Object]] unless an own
    [toString] property (never callable in parsed JSON) hides the inherited
    method, which is a [TypeError]. *)
Fixpoint ToString (v : JsVal) : Completion jsstring :=
  match v with
  | JUndefined => Normal (js "undefined")
  | JNull => Normal (js "null")
  | JBool true => Normal (js "true")
  | JBool false => Normal (js "false")
  | JNum l => Normal (Number_toString l)
  | JStr s => Normal s
  | JArr vs =>
      (fix join (l : list JsVal) : Completion jsstring :=
         match l with
         | [] => Normal []
         | x :: rest =>
             a <- match x with
                  | JUndefined | JNull => Normal []
                  | _ => ToString x
                  end ;;
             match rest with
             | [] => Normal a
             | _ :: _ => b <- join rest ;; Normal (a ++ 44 :: b)
             end
         end) vs
  | JObj props =>
      match own_prop (js "toString") props with
      | Some _ => Throw
      | None => Normal (js "[object Object]")
      end
  end.

(** [data.choices[0]?.delta?.content || ''] *)
Definition delta_content (data : JsVal) : Completion JsVal :=
  choices <- get_member data (js "choices") ;;
  first <- get_index0 choices ;;
  delta <- opt_member first (js "delta") ;;
  content <- opt_member delta (js "content") ;;
  Normal (if truthy content then content else JStr []).

End Values.

(** ** The application state *)

(** An entry of [this.messages]. *)
Record Message : Type := mkMessage {
  content : jsstring;
  role : jsstring;
  timestamp : nat
}.

(** A child of [#chatMessages]: a [div.message] with its avatar and the
    address of its [div.message-content]. *)
Record MessageElement : Type := mkMessageElement {
  m_className : jsstring;
  m_avatar : jsstring;
  m_content : nat
}.

(** The body of the completion request, as [JSON.stringify] receives it. *)
Record RequestBody : Type := mkRequestBody {
  rb_model : jsstring;
  rb_messages : list (jsstring * jsstring);
  rb_temperature : jsstring;
  rb_max_tokens : N;
  rb_stream : bool
}.

(** What an event handler does to the outside. *)
Inductive Effect : Type :=
| Fetch (url : jsstring) (body : RequestBody)
| ConsoleError (label : jsstring)
| ScrollToBottom
| HljsHighlight (block : CodeElem).

(** A call of [sendMessage] suspended at an [await]: on [fetch], or on
    [reader.read()] with its locals [assistantMessageContent] and
    [fullResponse]; or one that has returned. *)
Inductive Task : Type :=
| AwaitFetch
| AwaitRead (target : nat) (fullResponse : jsstring)
| Settled.

(** The fields of [ChatApp], the elements it holds, and the bookkeeping of
    the embedding.  [contents] is the store of [div.message-content]
    elements, addressed by allocation order, so that an element detached
    from [#chatMessages] can still be written through a reference held by a
    suspended call. *)
Record ChatApp : Type := mkChatApp {
  messages : list Message;
  isTyping : bool;
  chatMessages : list MessageElement;
  contents : list (list Block);
  messageInput_value : jsstring;
  messageInput_height : jsstring;
  sendButton_disabled : bool;
  typingIndicator_display : jsstring;
  lmStudioUrl_value : jsstring;
  modelName_value : jsstring;
  tasks : list Task;
  effects : list Effect
}.

Definition set_messages (ms : list Message) (a : ChatApp) : ChatApp :=
  mkChatApp ms (isTyping a) (chatMessages a) (contents a)
    (messageInput_value a) (messageInput_height a) (sendButton_disabled a)
    (typingIndicator_display a) (lmStudioUrl_value a) (modelName_value a)
    (tasks a) (effects a).

Definition set_typing (t dis : bool) (disp : jsstring) (a : ChatApp)
  : ChatApp :=
  mkChatApp (messages a) t (chatMessages a) (contents a)
    (messageInput_value a) (messageInput_height a) dis
    disp (lmStudioUrl_value a) (modelName_value a)
    (tasks a) (effects a).

Definition set_chatMessages (cs : list MessageElement) (a : ChatApp)
  : ChatApp :=
  mkChatApp (messages a) (isTyping a) cs (contents a)
    (messageInput_value a) (messageInput_height a) (sendButton_disabled a)
    (typingIndicator_display a) (lmStudioUrl_value a) (modelName_value a)
    (tasks a) (effects a).

Definition set_contents (cs : list (list Block)) (a : ChatApp) : ChatApp :=
  mkChatApp (messages a) (isTyping a) (chatMessages a) cs
    (messageInput_value a) (messageInput_height a) (sendButton_disabled a)
    (typingIndicator_display a) (lmStudioUrl_value a) (modelName_value a)
    (tasks a) (effects a).

Definition set_messageInput (v h : jsstring) (a : ChatApp) : ChatApp :=
  mkChatApp (messages a) (isTyping a) (chatMessages a) (contents a)
    v h (sendButton_disabled a)
    (typingIndicator_display a) (lmStudioUrl_value a) (modelName_value a)
    (tasks a) (effects a).

Definition set_tasks (ts : list Task) (a : ChatApp) : ChatApp :=
  mkChatApp (messages a) (isTyping a) (chatMessages a) (contents a)
    (messageInput_value a) (messageInput_height a) (sendButton_disabled a)
    (typingIndicator_display a) (lmStudioUrl_value a) (modelName_value a)
    ts (effects a).

Definition emit (e : Effect) (a : ChatApp) : ChatApp :=
  mkChatApp (messages a) (isTyping a) (chatMessages a) (contents a)
    (messageInput_value a) (messageInput_height a) (sendButton_disabled a)
    (typingIndicator_display a) (lmStudioUrl_value a) (modelName_value a)
    (tasks a) (effects a ++ [e]).

(** Replace the element at an index; nothing happens out of range. *)
Fixpoint list_set {A : Type} (i : nat) (x : A) (l : list A) : list A :=
  match l, i with
  | [], _ => []
  | _ :: r, O => x :: r
  | y :: r, S j => y :: list_set j x r
  end.

(** [new ChatApp()]: an empty log and a clear busy flag over the elements of
    the page. *)
Definition constructor (page : list MessageElement)
  (store : list (list Block)) (url model : jsstring) : ChatApp :=
  mkChatApp [] false page store [] [] false [] url model [] [].

(** ** The methods *)

(** [scrollToBottom()] schedules the scroll. *)
Definition scrollToBottom (a : ChatApp) : ChatApp := emit ScrollToBottom a.

(** [showTypingIndicator()] *)
Definition showTypingIndicator (a : ChatApp) : ChatApp :=
  scrollToBottom (set_typing true true (js "block") a).

(** [hideTypingIndicator()] *)
Definition hideTypingIndicator (a : ChatApp) : ChatApp :=
  set_typing false false (js "none") a.

(** The class tokens of a class attribute. *)
Fixpoint class_tokens_aux (cur : jsstring) (s : jsstring) : list jsstring :=
  match s with
  | [] => match cur with [] => [] | _ :: _ => [rev cur] end
  | c :: r =>
      if (c =? 32) || (c =? 9) || (c =? 10) || (c =? 12) || (c =? 13) then
        match cur with
        | [] => class_tokens_aux [] r
        | _ :: _ => rev cur :: class_tokens_aux [] r
        end
      else class_tokens_aux (c :: cur) r
  end.

Definition has_class (tok cls : jsstring) : bool :=
  existsb (jsstring_eqb tok) (class_tokens_aux [] cls).

(** [preElement.querySelector('.copy-button')] finds something: among the
    descendants of the [<pre>], which are the [<code>], the elements inside
    it, and the elements appended after it. *)
Definition has_copy_button (p : PreElem) : bool :=
  has_class (js "copy-button") (className (code p))
  || existsb (has_class (js "copy-button")) (inner_classes (code p))
  || existsb (fun e => has_class (js "copy-button") (e_className e))
       (appended p).

Definition copyButton : Elem :=
  mkElem (js "button") (js "copy-button") (js "Copy").

Definition langIndicator (c : CodeElem) : Elem :=
  mkElem (js "div") (js "lang-indicator")
    (remove_first (js "language-") (first_word (className c))).

Section Methods.
Context {B : Browser}.

(** The callback of [codeBlocks.forEach] on one [pre code]. *)
Definition highlight_block (p : PreElem) : PreElem :=
  let c := hljs_highlightElement (code p) in
  let p1 := mkPre c (appended p) in
  if has_copy_button p1 then p1
  else mkPre c (appended p ++ [langIndicator c; copyButton]).

Definition highlight_blocks (bs : list Block) : list Block :=
  map (fun b => match b with
                | Fence p => Fence (highlight_block p)
                | Prose h => Prose h
                end) bs.

(** The [<code>] elements [hljs.highlightElement] is called on, in order. *)
Fixpoint highlight_calls (bs : list Block) : list Effect :=
  match bs with
  | [] => []
  | Fence p :: r => HljsHighlight (code p) :: highlight_calls r
  | Prose _ :: r => highlight_calls r
  end.

(** [highlightCodeBlocks(container)], the container given by its address. *)
Definition highlightCodeBlocks (container : nat) (a : ChatApp) : ChatApp :=
  match nth_error (contents a) container with
  | None => a
  | Some bs =>
      let a1 := set_contents (list_set container (highlight_blocks bs)
                                (contents a)) a in
      mkChatApp (messages a1) (isTyping a1) (chatMessages a1) (contents a1)
        (messageInput_value a1) (messageInput_height a1)
        (sendButton_disabled a1) (typingIndicator_display a1)
        (lmStudioUrl_value a1) (modelName_value a1) (tasks a1)
        (effects a1 ++ highlight_calls bs)
  end.

(** [addMessage(content, role, addToHistory)]; the result is the new
    [div.message-content]. *)
Definition addMessage (c r : jsstring) (addToHistory : bool) (now : nat)
  (a : ChatApp) : nat * ChatApp :=
  let a1 := if addToHistory
            then set_messages (messages a ++ [mkMessage c r now]) a
            else a in
  let messageContent := List.length (contents a1) in
  let avatar := if jsstring_eqb r (js "user") then js "U" else js "AI" in
  let a2 := set_contents (contents a1 ++ [marked_parse c]) a1 in
  let a3 := set_chatMessages
              (chatMessages a2 ++
                 [mkMessageElement (js "message " ++ r) avatar messageContent])
              a2 in
  let a4 := scrollToBottom a3 in
  let a5 := if jsstring_eqb r (js "assistant")
            then highlightCodeBlocks messageContent a4
            else a4 in
  (messageContent, a5).

(** [this.messages.map(msg => ({ role: msg.role, content: msg.content }))] *)
Definition snapshot (a : ChatApp) : list (jsstring * jsstring) :=
  map (fun msg => (role msg, content msg)) (messages a).

Definition systemPrompt : jsstring :=
  js "You are Jarvis, a helpful AI assistant. Be concise, friendly, and helpful in your responses.".

Definition or_default (v d : jsstring) : jsstring :=
  match v with
  | [] => d
  | _ :: _ => v
  end.

(** [streamAIResponse()] up to [await fetch(...)]. *)
Definition streamAIResponse_request (a : ChatApp) : ChatApp :=
  let url := or_default (lmStudioUrl_value a) (js "http://localhost:1234") in
  let model := or_default (modelName_value a) (js "default") in
  let requestBody :=
    mkRequestBody model ((js "system", systemPrompt) :: snapshot a)
      (js "0.7") 1000 true in
  set_tasks (tasks a ++ [AwaitFetch])
    (emit (Fetch (url ++ js "/v1/chat/completions") requestBody) a).

(** [sendMessage()] up to its first suspension. *)
Definition sendMessage (now : nat) (a : ChatApp) : ChatApp :=
  let message := trim (messageInput_value a) in
  if jsstring_eqb message [] || isTyping a then a
  else
    let a1 := snd (addMessage message (js "user") true now a) in
    let a2 := set_messageInput [] (js "auto") a1 in
    let a3 := showTypingIndicator a2 in
    streamAIResponse_request a3.

Definition errorText : jsstring :=
  js "Sorry, I encountered an error. Please check your LM Studio connection.".

(** The [catch] block of [sendMessage]. *)
Definition sendMessage_catch (now : nat) (a : ChatApp) : ChatApp :=
  let a1 := hideTypingIndicator a in
  let a2 := snd (addMessage errorText (js "assistant") true now a1) in
  emit (ConsoleError (js "Error:")) a2.

(** The [try] block inside the record loop, on one payload. *)
Definition try_record (target : nat) (dataStr fullResponse : jsstring)
  (a : ChatApp) : jsstring * ChatApp :=
  let caught := (fullResponse,
                 emit (ConsoleError (js "Error parsing stream data:")) a) in
  match JSON_parse dataStr with
  | None => caught
  | Some data =>
      match delta_content data with
      | Throw => caught
      | Normal token =>
          if truthy token then
            match ToString token with
            | Throw => caught
            | Normal t =>
                let fullResponse' := fullResponse ++ t in
                (fullResponse',
                 scrollToBottom
                   (set_contents
                      (list_set target (marked_parse fullResponse')
                         (contents a)) a))
            end
          else (fullResponse, a)
      end
  end.

(** [for (const line of lines) { ... }], [break] included. *)
Fixpoint for_lines (target : nat) (lines : list jsstring)
  (fullResponse : jsstring) (a : ChatApp) : jsstring * ChatApp :=
  match lines with
  | [] => (fullResponse, a)
  | line :: rest =>
      if startsWith line (js "data: ") then
        let dataStr := substring_from 6 line in
        if jsstring_eqb (trim dataStr) (js "[DONE]") then (fullResponse, a)
        else
          let '(fullResponse', a') :=
            try_record target dataStr fullResponse a in
          for_lines target rest fullResponse' a'
      else for_lines target rest fullResponse a
  end.

(** One turn of [while (true)] with [done] false: the chunk is split and its
    records are run. *)
Definition read_chunk (target : nat) (chunk fullResponse : jsstring)
  (a : ChatApp) : jsstring * ChatApp :=
  for_lines target (split_nn chunk) fullResponse a.

(** [streamAIResponse()] after the loop. *)
Definition streamAIResponse_finish (target : nat) (fullResponse : jsstring)
  (now : nat) (a : ChatApp) : ChatApp :=
  let a1 := match fullResponse with
            | [] => a
            | _ :: _ =>
                set_messages
                  (messages a ++ [mkMessage fullResponse (js "assistant") now])
                  a
            end in
  highlightCodeBlocks target a1.

(** [clearChat()].  The greeting is the content the template literal gives
    the [div.message-content]: the sentence on a line of its own, between the
    line breaks and the indentation of the template. *)
Definition greeting : jsstring :=
  10 :: repeat 32 20%nat
  ++ js "Hello! I'm Jarvis, powered by LM Studio. How can I help you today?"
  ++ 10 :: repeat 32 16%nat.

Definition clearChat (a : ChatApp) : ChatApp :=
  let a1 := set_messages [] a in
  let greetingContent := List.length (contents a1) in
  set_chatMessages
    [mkMessageElement (js "message assistant") (js "AI") greetingContent]
    (set_contents (contents a1 ++ [[Prose greeting]]) a1).

(** ** The event loop *)

(** [response.ok]: the status is in the range 200 to 299. *)
Definition response_ok (status : N) : bool :=
  (200 <=? status) && (status <=? 299).

(** What the browser delivers to the application, one handler run each: an
    edit of the input field (with the height the resize listener reads), a
    click on send or Enter, the settling of [fetch] and of [reader.read()]
    for a suspended call (a chunk is given as the text [decoder.decode]
    makes of it), and the clear shortcut.  An input addressed to a
    call that is not waiting for it does nothing. *)
Inductive Input : Type :=
| TypeText (text height : jsstring)
| Submit (now : nat)
| FetchResolved (task : nat) (status : N) (now : nat)
| FetchRejected (task : nat) (now : nat)
| ChunkRead (task : nat) (chunk : jsstring)
| ReadDone (task : nat) (now : nat)
| ReadRejected (task : nat) (now : nat)
| ClearShortcut.

Definition step (a : ChatApp) (i : Input) : ChatApp :=
  match i with
  | TypeText text height => set_messageInput text height a
  | Submit now => sendMessage now a
  | FetchResolved t status now =>
      match nth_error (tasks a) t with
      | Some AwaitFetch =>
          if response_ok status then
            let '(target, a1) := addMessage [] (js "assistant") false now a in
            let a2 := hideTypingIndicator a1 in
            set_tasks (list_set t (AwaitRead target []) (tasks a2)) a2
          else
            sendMessage_catch now (set_tasks (list_set t Settled (tasks a)) a)
      | _ => a
      end
  | FetchRejected t now =>
      match nth_error (tasks a) t with
      | Some AwaitFetch =>
          sendMessage_catch now (set_tasks (list_set t Settled (tasks a)) a)
      | _ => a
      end
  | ChunkRead t chunk =>
      match nth_error (tasks a) t with
      | Some (AwaitRead target fullResponse) =>
          let '(fullResponse', a1) :=
            read_chunk target chunk fullResponse a in
          set_tasks (list_set t (AwaitRead target fullResponse') (tasks a1)) a1
      | _ => a
      end
  | ReadDone t now =>
      match nth_error (tasks a) t with
      | Some (AwaitRead target fullResponse) =>
          streamAIResponse_finish target fullResponse now
            (set_tasks (list_set t Settled (tasks a)) a)
      | _ => a
      end
  | ReadRejected t now =>
      match nth_error (tasks a) t with
      | Some (AwaitRead _ _) =>
          sendMessage_catch now (set_tasks (list_set t Settled (tasks a)) a)
      | _ => a
      end
  | ClearShortcut => clearChat a
  end.

Definition run (a : ChatApp) (inputs : list Input) : ChatApp :=
  fold_left step inputs a.

(** The exchanges whose response body is being read. *)
Definition streaming (a : ChatApp) : nat :=
  List.length
    (filter (fun t => match t with AwaitRead _ _ => true | _ => false end)
       (tasks a)).

(** ** The text a stream commits *)

(** What the [try] block appends to [fullResponse] for one payload: the
    delta fragment of a record that parses and carries one, nothing
    otherwise. *)
Definition record_fragment (dataStr : jsstring) : jsstring :=
  match JSON_parse dataStr with
  | None => []
  | Some data =>
      match delta_content data with
      | Throw => []
      | Normal token =>
          if truthy token then
            match ToString token with
            | Throw => []
            | Normal t => t
            end
          else []
      end
  end.

(** The fragments of the records of one chunk, up to its end marker. *)
Fixpoint chunk_fragments (lines : list jsstring) : list jsstring :=
  match lines with
  | [] => []
  | line :: rest =>
      if startsWith line (js "data: ") then
        if jsstring_eqb (trim (substring_from 6 line)) (js "[DONE]") then []
        else record_fragment (substring_from 6 line) :: chunk_fragments rest
      else chunk_fragments rest
  end.

Definition stream_fragments (chunks : list jsstring) : list jsstring :=
  flat_map (fun c => chunk_fragments (split_nn c)) chunks.

(** The message [streamAIResponse] pushes for a final buffer. *)
Definition committed (text : jsstring) (now : nat) : list Message :=
  match text with
  | [] => []
  | _ :: _ => [mkMessage text (js "assistant") now]
  end.

(** A line of a chunk that the loop passes over: it lacks the prefix, or its
    payload is not the end marker and fails to parse. *)
Definition line_skipped (line : jsstring) : Prop :=
  startsWith line (js "data: ") = false
  \/ (startsWith line (js "data: ") = true
      /\ jsstring_eqb (trim (substring_from 6 line)) (js "[DONE]") = false
      /\ JSON_parse (substring_from 6 line) = None).

End Methods.

(** ** A sample page

    A stand-in for the page libraries, used to run the model on concrete
    inputs: text is rendered as one block of prose, highlighting rewrites the
    class attribute, and a number is truthy unless its literal is written
    with zeros only. *)
Definition sample_marked (s : jsstring) : list Block :=
  match s with
  | [] => []
  | _ :: _ => [Prose s]
  end.

Definition sample_hljs (c : CodeElem) : CodeElem :=
  mkCode (js "language-js hljs") (textContent c) (textContent c) [].

Definition sample_truthy (l : jsstring) : bool :=
  negb (forallb (fun c => (c =? 48) || (c =? 45) || (c =? 46)) l).

Definition sample_browser : Browser :=
  Build_Browser sample_marked sample_hljs sample_truthy (fun l => l).

(** A fenced region as [marked] renders it, before any pass. *)
Definition sample_fence : PreElem :=
  mkPre (mkCode (js "language-js") (js "let x = 1;") (js "let x = 1;") [])
    [].

(** A session whose first exchange has reached the response body: the
    user said [hi], the endpoint answered 200, no chunk has been read. *)
Definition streaming_session : ChatApp :=
  run (B := sample_browser) (constructor [] [] [] [])
    [TypeText (js "hi") []; Submit 1; FetchResolved 0 200 2].

(** A page whose only bubble holds one fenced region, not yet processed. *)
Definition fenced_session : ChatApp :=
  constructor [mkMessageElement (js "message assistant") (js "AI") 0]
    [[Prose (js "<p>Try:</p>"); Fence sample_fence]] [] [].

(** A streamed record carrying one delta fragment. *)
Definition delta_record (fragment : string) : jsstring :=
  jq "data: {'choices':[{'delta':{'content':'" ++ js fragment ++ jq "'}}]}".

Definition done_record : jsstring := js "data: [DONE]".

Definition nn : jsstring := [10; 10].

(** Two states that differ at most in the stored contents and in the
    effect log: what rendering a stream changes. *)
Definition only_rendering (a a' : ChatApp) : Prop :=
  messages a' = messages a
  /\ isTyping a' = isTyping a
  /\ chatMessages a' = chatMessages a
  /\ sendButton_disabled a' = sendButton_disabled a
  /\ tasks a' = tasks a
  /\ messageInput_value a' = messageInput_value a.

(** ** Scenarios *)

Section Scenarios.
Context {B : Browser}.

(** Appending a sequence of (content, role, time) entries to the log. *)
Fixpoint append_all (entries : list (jsstring * jsstring * nat))
  (a : ChatApp) : ChatApp :=
  match entries with
  | [] => a
  | (c, r, now) :: rest => append_all rest (snd (addMessage c r true now a))
  end.

(** The inputs of one response body: its chunks, then the end of the body. *)
Definition body_inputs (t : nat) (chunks : list jsstring) (now : nat)
  : list Input :=
  map (ChunkRead t) chunks ++ [ReadDone t now].

End Scenarios.

(** The completion requests issued so far. *)
Definition requests (a : ChatApp) : list Effect :=
  filter (fun e => match e with Fetch _ _ => true | _ => false end)
    (effects a).

(** The calls of [hljs.highlightElement] made so far. *)
Definition highlights (a : ChatApp) : list Effect :=
  filter (fun e => match e with HljsHighlight _ => true | _ => false end)
    (effects a).

(** The copy buttons appended to a [<pre>]. *)
Definition copy_buttons (p : PreElem) : nat :=
  List.length
    (filter (fun e => has_class (js "copy-button") (e_className e))
       (appended p)).

(** The language labels appended to a [<pre>]. *)
Definition lang_labels (p : PreElem) : nat :=
  List.length
    (filter (fun e => has_class (js "lang-indicator") (e_className e))
       (appended p)).

Section Finalization.
Context {B : Browser}.

(** What one pass makes of a block.  Prose is left alone.  In a fenced
    region the [<code>] is the highlighted one; nothing that was appended
    before is removed or reordered; if the selector found a [.copy-button]
    below the [<pre>] nothing is appended, and otherwise exactly a language
    label and then a copy button are; afterwards the selector finds a
    [.copy-button], and the region has gained at most one copy button and at
    most one language label. *)
Definition finalized (b b1 : Block) : Prop :=
  match b, b1 with
  | Prose h, Prose h1 => h1 = h
  | Fence p, Fence p1 =>
      code p1 = hljs_highlightElement (code p)
      /\ (exists added,
            appended p1 = appended p ++ added
            /\ (has_copy_button (mkPre (code p1) (appended p)) = true ->
                added = [])
            /\ (has_copy_button (mkPre (code p1) (appended p)) = false ->
                added = [mkElem (js "div") (js "lang-indicator")
                           (remove_first (js "language-")
                              (first_word (className (code p1))));
                         mkElem (js "button") (js "copy-button") (js "Copy")]))
      /\ has_copy_button p1 = true
      /\ (copy_buttons p1 <= S (copy_buttons p))%nat
      /\ (lang_labels p1 <= S (lang_labels p))%nat
  | _, _ => False
  end.

End Finalization.

(** A session in which something was said before. *)
Definition used_session : ChatApp :=
  set_messages [mkMessage (js "hi") (js "user") 0%nat;
                mkMessage (js "Hello.") (js "assistant") 1%nat]
    (constructor [] [] [] []).

(** ** The rest of the class *)

(** [lines.join('\n\n')], the inverse reading of [split_nn]. *)
Fixpoint join_nn (lines : list jsstring) : jsstring :=
  match lines with
  | [] => []
  | x :: rest =>
      match rest with
      | [] => x
      | _ :: _ => x ++ nn ++ join_nn rest
      end
  end.

(** A code unit that a JSON string literal holds as it is: no control
    character, no quote, no backslash. *)
Definition plain (c : N) : bool :=
  (32 <=? c) && negb (c =? 34) && negb (c =? 92).

(** A streamed record carrying the given text as its delta fragment. *)
Definition delta_record_of (fragment : jsstring) : jsstring :=
  jq "data: {'choices':[{'delta':{'content':'" ++ fragment ++ jq "'}}]}".

(** The shape of a valid streamed record, told without the expression the
    loop reads it with: the parsed payload is an object whose [choices] is
    an array whose first element is an object whose [delta] is an object
    whose [content] is the string [f], the delta fragment of the record. *)
Definition delta_fragment (data : JsVal) (f : jsstring) : Prop :=
  exists props first rest delta,
    data = JObj props
    /\ own_prop (js "choices") props = Some (JArr (JObj first :: rest))
    /\ own_prop (js "delta") first = Some (JObj delta)
    /\ own_prop (js "content") delta = Some (JStr f).

(** The value a record carrying the fragment [f] and nothing else parses
    to. *)
Definition delta_value (f : jsstring) : JsVal :=
  JObj [(js "choices",
         JArr [JObj [(js "delta", JObj [(js "content", JStr f)])]])].

(** The lines of one chunk, in order, and the delta fragments they carry: a
    line with the prefix whose payload parses to a valid record carries its
    fragment; a line with the prefix whose payload is not the end marker and
    fails to parse carries none, and neither does a line without the prefix;
    at a line whose payload is the end marker the rest of the chunk is left
    unread. *)
Inductive lines_carry : list jsstring -> list jsstring -> Prop :=
| carry_end : lines_carry [] []
| carry_delta (line : jsstring) (rest : list jsstring) (data : JsVal)
    (f : jsstring) (fs : list jsstring) :
    startsWith line (js "data: ") = true ->
    JSON_parse (substring_from 6 line) = Some data ->
    delta_fragment data f ->
    lines_carry rest fs ->
    lines_carry (line :: rest) (f :: fs)
| carry_malformed (line : jsstring) (rest fs : list jsstring) :
    startsWith line (js "data: ") = true ->
    jsstring_eqb (trim (substring_from 6 line)) (js "[DONE]") = false ->
    JSON_parse (substring_from 6 line) = None ->
    lines_carry rest fs ->
    lines_carry (line :: rest) fs
| carry_unprefixed (line : jsstring) (rest fs : list jsstring) :
    startsWith line (js "data: ") = false ->
    lines_carry rest fs ->
    lines_carry (line :: rest) fs
| carry_done (line : jsstring) (rest : list jsstring) :
    startsWith line (js "data: ") = true ->
    jsstring_eqb (trim (substring_from 6 line)) (js "[DONE]") = true ->
    lines_carry (line :: rest) [].

(** The chunks of a response body and the delta fragments they carry. *)
Inductive stream_carries : list jsstring -> list jsstring -> Prop :=
| stream_end : stream_carries [] []
| stream_chunk (c : jsstring) (cs fs fss : list jsstring) :
    lines_carry (split_nn c) fs ->
    stream_carries cs fss ->
    stream_carries (c :: cs) (fs ++ fss).

(** The guard of [sendMessage] lets the call through. *)
Definition can_send (a : ChatApp) : bool :=
  negb (jsstring_eqb (trim (messageInput_value a)) [] || isTyping a).

(** [getAIResponse(userMessage)] up to [await fetch(...)]: the request it
    issues.  It touches no field. *)
Definition getAIResponse_request (userMessage : jsstring) (a : ChatApp)
  : Effect :=
  let url := or_default (lmStudioUrl_value a) (js "http://localhost:1234") in
  let model := or_default (modelName_value a) (js "default") in
  Fetch (url ++ js "/v1/chat/completions")
    (mkRequestBody model
       ((js "system", systemPrompt)
        :: snapshot a ++ [(js "user", userMessage)])
       (js "0.7") 1000 false).

(** [data.choices[0].message.content] *)
Definition message_content (data : JsVal) : Completion JsVal :=
  choices <- get_member data (js "choices") ;;
  first <- get_index0 choices ;;
  message <- get_member first (js "message") ;;
  get_member message (js "content").

(** [getAIResponse] after the response has arrived with the given status and
    body text: the value returned, or the error thrown (by the status check,
    by [response.json()], or by the property accesses). *)
Definition getAIResponse_result (status : N) (body : jsstring)
  : Completion JsVal :=
  if response_ok status then
    match JSON_parse body with
    | None => Throw
    | Some data => message_content data
    end
  else Throw.

(** An effect that is a completion request. *)
Definition is_request (e : Effect) : bool :=
  match e with
  | Fetch _ _ => true
  | _ => false
  end.

(** The second state has the effects of the first, followed by effects that
    are not requests. *)
Definition quiet (a a' : ChatApp) : Prop :=
  exists l, effects a' = effects a ++ l /\ filter is_request l = [].

(** The request [streamAIResponse] issues for a user message [m] logged on
    top of the state [a]. *)
Definition streaming_request (m : jsstring) (a : ChatApp) : Effect :=
  Fetch
    (or_default (lmStudioUrl_value a) (js "http://localhost:1234")
     ++ js "/v1/chat/completions")
    (mkRequestBody (or_default (modelName_value a) (js "default"))
       ((js "system", systemPrompt) :: snapshot a ++ [(js "user", m)])
       (js "0.7") 1000 true).

Section Rendering.
Context {B : Browser}.

(** Between two moments of a call with bubble [target]: the store has kept
    its size, and either nothing was rendered and the buffer is the same, or
    the bubble holds [marked]'s rendering of the buffer as it is now. *)
Definition rendering (target : nat) (fr0 : jsstring) (a0 : ChatApp)
  (fr1 : jsstring) (a1 : ChatApp) : Prop :=
  List.length (contents a1) = List.length (contents a0)
  /\ ((contents a1 = contents a0 /\ fr1 = fr0)
      \/ nth_error (contents a1) target = Some (marked_parse fr1)).

End Rendering.

(** * Properties *)

Unset Implicit Arguments.

(** ** Strings *)

Lemma jsstring_eqb_eq (a b : jsstring) : jsstring_eqb a b = true <-> a = b.
Proof.
  revert b; induction a as [|x a IH]; intros [|y b]; simpl; split;
    try discriminate; try reflexivity; intro H.
  - apply andb_true_iff in H as [Hx Hr].
    apply N.eqb_eq in Hx. apply IH in Hr. now subst.
  - injection H as -> ->. rewrite N.eqb_refl. simpl. now apply IH.
Qed.

Lemma jsstring_eqb_refl (a : jsstring) : jsstring_eqb a a = true.
Proof. now apply jsstring_eqb_eq. Qed.

Lemma jsstring_eqb_neq (a b : jsstring) : jsstring_eqb a b = false <-> a <> b.
Proof.
  split.
  - intros H E. apply jsstring_eqb_eq in E. congruence.
  - intros H. destruct (jsstring_eqb a b) eqn:E; [|reflexivity].
    apply jsstring_eqb_eq in E. contradiction.
Qed.

Lemma startsWith_app (s p : jsstring) :
  startsWith s p = true <-> exists r, s = p ++ r.
Proof.
  revert s; induction p as [|y p IH]; intros s; simpl.
  - split; [intros _; now exists s | reflexivity].
  - destruct s as [|x s].
    + split; [discriminate | intros [r Hr]; discriminate].
    + split.
      * intros H. apply andb_true_iff in H as [Hx Hr].
        apply N.eqb_eq in Hx. apply IH in Hr as [r ->]. subst. now exists r.
      * intros [r Hr]. injection Hr as -> ->. rewrite N.eqb_refl. simpl.
        apply IH. now exists r.
Qed.

Lemma trimStart_whitespace (s : jsstring) :
  Forall (fun c => is_js_whitespace c = true) s -> trimStart s = [].
Proof.
  induction 1 as [|c s Hc _ IH]; simpl; [reflexivity|]. now rewrite Hc.
Qed.

Lemma trim_whitespace (s : jsstring) :
  Forall (fun c => is_js_whitespace c = true) s -> trim s = [].
Proof.
  intros H. unfold trim. now rewrite (trimStart_whitespace _ H).
Qed.

(** ** JSON text *)

Lemma skip_ws_app (r y : jsstring) :
  skip_ws r <> [] -> skip_ws (r ++ y) = skip_ws r ++ y.
Proof.
  induction r as [|c r IH]; simpl; intros H; [congruence|].
  destruct (is_json_ws c); [now apply IH | reflexivity].
Qed.

Lemma skip_ws_nil (s : jsstring) :
  skip_ws s = [] -> Forall (fun c => is_json_ws c = true) s.
Proof.
  induction s as [|c s IH]; simpl; intros H; [constructor|].
  destruct (is_json_ws c) eqn:E; [|discriminate].
  constructor; auto.
Qed.

Lemma json_ws_structural (c : N) :
  is_json_ws c = true -> c <> 34 /\ structural c = true.
Proof.
  intros H. split.
  - intros ->. discriminate H.
  - unfold structural. now rewrite H.
Qed.

Lemma scan_app (st : LexState) (a b : jsstring) :
  scan st (a ++ b)
  = match scan st a with
    | Some st' => scan st' b
    | None => None
    end.
Proof.
  revert st; induction a as [|c a IH]; intros st; simpl; [reflexivity|].
  destruct (scan_step st c); [apply IH | reflexivity].
Qed.

Lemma scan_json_ws (w : jsstring) :
  Forall (fun c => is_json_ws c = true) w -> scan LOut w = Some LOut.
Proof.
  induction 1 as [|c w Hc _ IH]; simpl; [reflexivity|].
  destruct (json_ws_structural c Hc) as [Hq Hs].
  apply N.eqb_neq in Hq. now rewrite Hq, Hs.
Qed.

(** What [skip_ws] drops is whitespace. *)
Lemma skip_ws_split (s : jsstring) :
  exists w, s = w ++ skip_ws s /\ Forall (fun c => is_json_ws c = true) w.
Proof.
  induction s as [|c s (w & E & F)]; simpl.
  - exists []. split; [reflexivity | constructor].
  - destruct (is_json_ws c) eqn:Hc.
    + exists (c :: w). split; [simpl; now rewrite <- E | now constructor].
    + exists []. split; [reflexivity | constructor].
Qed.

(** *** String literals *)

Lemma parse_chars_stable : stable_list parse_chars.
Proof.
  intros s.
  induction s as [s IH] using (induction_ltof1 _ (@List.length N)).
  unfold ltof in IH.
  intros str r y H. destruct s as [|c s]; [discriminate|].
  cbn [parse_chars app] in *.
  destruct (c =? 34); [injection H as <- <-; reflexivity|].
  destruct (c =? 92).
  - destruct s as [|e s]; [discriminate|]. cbn [app].
    destruct (e =? 117).
    + destruct s as [|h1 [|h2 [|h3 [|h4 s]]]]; try discriminate. cbn [app].
      destruct (hex4 h1 h2 h3 h4); [|discriminate].
      destruct (parse_chars s) as [[str' rest]|] eqn:E; [|discriminate].
      injection H as <- <-.
      rewrite (IH s) with (vs := str') (r := rest); [reflexivity| |exact E].
      simpl. lia.
    + destruct (unescape e); [|discriminate].
      destruct (parse_chars s) as [[str' rest]|] eqn:E; [|discriminate].
      injection H as <- <-.
      rewrite (IH s) with (vs := str') (r := rest); [reflexivity| |exact E].
      simpl. lia.
  - destruct (c <? 32); [discriminate|].
    destruct (parse_chars s) as [[str' rest]|] eqn:E; [|discriminate].
    injection H as <- <-.
    rewrite (IH s) with (vs := str') (r := rest); [reflexivity| |exact E].
    simpl. lia.
Qed.

(** From just inside a string literal, what [parse_chars] consumes ends just
    outside it. *)
Lemma parse_chars_scan (s str r : jsstring) :
  parse_chars s = Some (str, r) ->
  exists c, s = c ++ r /\ c <> [] /\ scan LIn c = Some LOut.
Proof.
  revert str r.
  induction s as [s IH] using (induction_ltof1 _ (@List.length N)).
  unfold ltof in IH.
  intros str r H. destruct s as [|c s]; [discriminate|].
  cbn [parse_chars] in H.
  destruct (c =? 34) eqn:Eq.
  { injection H as <- <-. exists [c]. simpl. rewrite Eq.
    repeat split. discriminate. }
  destruct (c =? 92) eqn:Eb.
  - destruct s as [|e s]; [discriminate|].
    destruct (e =? 117).
    + destruct s as [|h1 [|h2 [|h3 [|h4 s]]]]; try discriminate.
      destruct (hex4 h1 h2 h3 h4) eqn:Eh; [|discriminate].
      destruct (parse_chars s) as [[str' rest]|] eqn:E; [|discriminate].
      injection H as <- <-.
      destruct (IH s) with (str := str') (r := rest) as (k & -> & _ & Hk);
        [simpl; lia | exact E |].
      exists (c :: e :: h1 :: h2 :: h3 :: h4 :: k).
      split; [reflexivity|]. split; [discriminate|].
      assert (Hx : forall h, hex_val h <> None ->
                             (h =? 34) = false /\ (h =? 92) = false).
      { intros h Hh. split; apply N.eqb_neq; intros ->; now apply Hh. }
      unfold hex4 in Eh.
      destruct (hex_val h1) eqn:E1; [|discriminate].
      destruct (hex_val h2) eqn:E2; [|discriminate].
      destruct (hex_val h3) eqn:E3; [|discriminate].
      destruct (hex_val h4) eqn:E4; [|discriminate].
      destruct (Hx h1) as [A1 B1]; [congruence|].
      destruct (Hx h2) as [A2 B2]; [congruence|].
      destruct (Hx h3) as [A3 B3]; [congruence|].
      destruct (Hx h4) as [A4 B4]; [congruence|].
      cbn [scan scan_step]. rewrite Eq, Eb.
      cbn [scan scan_step]. rewrite A1, B1.
      cbn [scan scan_step]. rewrite A2, B2.
      cbn [scan scan_step]. rewrite A3, B3.
      cbn [scan scan_step]. rewrite A4, B4. exact Hk.
    + destruct (unescape e); [|discriminate].
      destruct (parse_chars s) as [[str' rest]|] eqn:E; [|discriminate].
      injection H as <- <-.
      destruct (IH s) with (str := str') (r := rest) as (k & -> & _ & Hk);
        [simpl; lia | exact E |].
      exists (c :: e :: k).
      split; [reflexivity|]. split; [discriminate|].
      cbn [scan scan_step]. rewrite Eq, Eb. exact Hk.
  - destruct (c <? 32); [discriminate|].
    destruct (parse_chars s) as [[str' rest]|] eqn:E; [|discriminate].
    injection H as <- <-.
    destruct (IH s) with (str := str') (r := rest) as (k & -> & _ & Hk);
      [simpl; lia | exact E |].
    exists (c :: k).
    split; [reflexivity|]. split; [discriminate|].
    cbn [scan scan_step]. rewrite Eq, Eb. exact Hk.
Qed.

(** *** Numbers *)

Lemma lex_number_stable (st : NumState) (s lx r y : jsstring) :
  lex_number st s = Some (lx, r) ->
  r <> [] ->
  lex_number st (s ++ y) = Some (lx, r ++ y).
Proof.
  revert st lx r. induction s as [|c s IH]; intros st lx r H Hr.
  - simpl in H. destruct (num_accepting st); [|discriminate].
    injection H as <- <-. contradiction.
  - cbn [lex_number app] in *.
    destruct (num_step st c) as [st'|].
    + destruct (lex_number st' s) as [[lx' rest]|] eqn:E; [|discriminate].
      injection H as <- <-. now rewrite (IH st' lx' rest E Hr).
    + destruct (num_accepting st); [|discriminate].
      injection H as <- <-. reflexivity.
Qed.

Lemma digit_structural (c : N) :
  is_digit c = true -> (c =? 34) = false /\ structural c = true.
Proof.
  intros H. split.
  - unfold is_digit in H. apply andb_true_iff in H as [H _].
    apply N.leb_le in H. apply N.eqb_neq. lia.
  - unfold structural. rewrite H. now rewrite orb_true_r.
Qed.

Lemma num_step_structural (st st' : NumState) (c : N) :
  num_step st c = Some st' -> (c =? 34) = false /\ structural c = true.
Proof.
  assert (K : forall k, (k =? 34) = false -> structural k = true ->
                        (c =? k) = true ->
                        (c =? 34) = false /\ structural c = true).
  { intros k H1 H2 E. apply N.eqb_eq in E. now subst. }
  intros H. destruct st; cbn [num_step] in H;
    repeat match type of H with
      | (if ?b || ?b' then _ else _) = _ =>
          destruct b eqn:?; cbn [orb] in H
      | (if ?b then _ else _) = _ => destruct b eqn:?
      end;
    try discriminate;
    try (now apply digit_structural);
    match goal with
    | E : (c =? ?k) = true |- _ => now apply (K k)
    end.
Qed.

(** A number literal is what was consumed, and holds no quote. *)
Lemma lex_number_scan (st : NumState) (s lx r : jsstring) :
  lex_number st s = Some (lx, r) ->
  s = lx ++ r
  /\ scan LOut lx = Some LOut
  /\ (num_accepting st = false -> lx <> []).
Proof.
  revert st lx r. induction s as [|c s IH]; intros st lx r H.
  - simpl in H. destruct (num_accepting st) eqn:Ea; [|discriminate].
    injection H as <- <-. repeat split. discriminate.
  - cbn [lex_number] in H.
    destruct (num_step st c) as [st'|] eqn:Es.
    + destruct (lex_number st' s) as [[lx' rest]|] eqn:E; [|discriminate].
      injection H as <- <-.
      destruct (IH st' lx' rest E) as (-> & Hs & _).
      destruct (num_step_structural _ _ _ Es) as [Hq Hc].
      repeat split; [|discriminate].
      cbn [scan scan_step]. now rewrite Hq, Hc.
    + destruct (num_accepting st) eqn:Ea; [|discriminate].
      injection H as <- <-. repeat split. discriminate.
Qed.

(** *** Values *)

Lemma startsWith_app_r (s p y : jsstring) :
  startsWith s p = true ->
  startsWith (s ++ y) p = true
  /\ skipn (List.length p) (s ++ y) = skipn (List.length p) s ++ y.
Proof.
  intros H. apply startsWith_app in H as [r ->]. split.
  - apply startsWith_app. exists (r ++ y). now rewrite app_assoc.
  - rewrite <- app_assoc, !skipn_app, !skipn_all, !Nat.sub_diag. reflexivity.
Qed.

Lemma value_step_stable members elements :
  stable_list members -> stable_list elements ->
  stable_value (value_step members elements).
Proof.
  intros Hm He s v r y H Hr.
  destruct s as [|c s]; [discriminate|]. cbn [value_step app] in *.
  destruct (c =? 123).
  { destruct (skip_ws s) as [|d r'] eqn:Ew; [discriminate|].
    rewrite skip_ws_app by (rewrite Ew; discriminate). rewrite Ew.
    cbn [app]. destruct (d =? 125); [injection H as <- <-; reflexivity|].
    destruct (members s) as [[kvs rest]|] eqn:E; [|discriminate].
    injection H as <- <-. now rewrite (Hm s kvs rest y E). }
  destruct (c =? 91).
  { destruct (skip_ws s) as [|d r'] eqn:Ew; [discriminate|].
    rewrite skip_ws_app by (rewrite Ew; discriminate). rewrite Ew.
    cbn [app]. destruct (d =? 93); [injection H as <- <-; reflexivity|].
    destruct (elements s) as [[vs rest]|] eqn:E; [|discriminate].
    injection H as <- <-. now rewrite (He s vs rest y E). }
  destruct (c =? 34).
  { destruct (parse_chars s) as [[str rest]|] eqn:E; [|discriminate].
    injection H as <- <-. now rewrite (parse_chars_stable s str rest y E). }
  destruct (c =? 116).
  { destruct (startsWith s (js "rue")) eqn:E; [|discriminate].
    injection H as <- <-.
    destruct (startsWith_app_r s (js "rue") y E) as [E1 E2].
    cbn in E2. rewrite E1. cbn [skipn]. rewrite E2. reflexivity. }
  destruct (c =? 102).
  { destruct (startsWith s (js "alse")) eqn:E; [|discriminate].
    injection H as <- <-.
    destruct (startsWith_app_r s (js "alse") y E) as [E1 E2].
    cbn in E2. rewrite E1. cbn [skipn]. rewrite E2. reflexivity. }
  destruct (c =? 110).
  { destruct (startsWith s (js "ull")) eqn:E; [|discriminate].
    injection H as <- <-.
    destruct (startsWith_app_r s (js "ull") y E) as [E1 E2].
    cbn in E2. rewrite E1. cbn [skipn]. rewrite E2. reflexivity. }
  destruct (lex_number NStart (c :: s)) as [[lx rest]|] eqn:E; [|discriminate].
  injection H as <- <-.
  destruct Hr as [Hr | Hr]; [|discriminate].
  change (c :: s ++ y) with ((c :: s) ++ y).
  now rewrite (lex_number_stable NStart (c :: s) lx rest y E Hr).
Qed.

Lemma elements_step_stable value elements :
  value [] = None ->
  stable_value value -> stable_list elements ->
  stable_list (elements_step value elements).
Proof.
  intros Hn Hv He s vs r y H. unfold elements_step in *.
  destruct (value (skip_ws s)) as [[v r1]|] eqn:Ev; [|discriminate].
  assert (Hs : skip_ws s <> []) by (intros E; rewrite E in Ev; congruence).
  destruct (skip_ws r1) as [|c r'] eqn:Ew; [discriminate|].
  assert (Hr1 : r1 <> []) by (intros ->; discriminate).
  rewrite (skip_ws_app s y Hs), (Hv _ v r1 y Ev (or_introl Hr1)).
  rewrite skip_ws_app by (rewrite Ew; discriminate). rewrite Ew. cbn [app].
  destruct (c =? 44).
  - destruct (elements r') as [[vs' rest]|] eqn:E; [|discriminate].
    injection H as <- <-. now rewrite (He r' vs' rest y E).
  - destruct (c =? 93); [|discriminate]. injection H as <- <-. reflexivity.
Qed.

Lemma members_step_stable value members :
  value [] = None ->
  stable_value value -> stable_list members ->
  stable_list (members_step value members).
Proof.
  intros Hn Hv Hm s kvs r y H. unfold members_step in *.
  destruct (skip_ws s) as [|q r0] eqn:Es; [discriminate|].
  rewrite skip_ws_app by (rewrite Es; discriminate). rewrite Es. cbn [app].
  destruct (q =? 34); [|discriminate].
  destruct (parse_chars r0) as [[k r1]|] eqn:Ek; [|discriminate].
  rewrite (parse_chars_stable r0 k r1 y Ek).
  destruct (skip_ws r1) as [|colon r2] eqn:E1; [discriminate|].
  rewrite skip_ws_app by (rewrite E1; discriminate). rewrite E1. cbn [app].
  destruct (colon =? 58); [|discriminate].
  destruct (value (skip_ws r2)) as [[v r3]|] eqn:Ev; [|discriminate].
  assert (Hs : skip_ws r2 <> []) by (intros E; rewrite E in Ev; congruence).
  destruct (skip_ws r3) as [|c r4] eqn:E3; [discriminate|].
  assert (Hr3 : r3 <> []) by (intros ->; discriminate).
  rewrite (skip_ws_app r2 y Hs), (Hv _ v r3 y Ev (or_introl Hr3)).
  rewrite skip_ws_app by (rewrite E3; discriminate). rewrite E3. cbn [app].
  destruct (c =? 44).
  - destruct (members r4) as [[kvs' rest]|] eqn:E; [|discriminate].
    injection H as <- <-. now rewrite (Hm r4 kvs' rest y E).
  - destruct (c =? 125); [|discriminate]. injection H as <- <-. reflexivity.
Qed.

Lemma parse_value_nil (f : nat) : parse_value f [] = None.
Proof. destruct f; reflexivity. Qed.

Lemma parse_stable (f : nat) :
  stable_value (parse_value f)
  /\ stable_list (parse_elements f)
  /\ stable_list (parse_members f).
Proof.
  induction f as [|f (Hv & He & Hm)].
  - repeat split; intros s v r y H; discriminate H.
  - repeat split; cbn [parse_value parse_elements parse_members].
    + now apply value_step_stable.
    + apply elements_step_stable; auto using parse_value_nil.
    + apply members_step_stable; auto using parse_value_nil.
Qed.

(** *** More fuel changes nothing *)

Lemma value_step_refines members members' elements elements' :
  refines members members' -> refines elements elements' ->
  refines (value_step members elements) (value_step members' elements').
Proof.
  intros Hm He s [v r] H. destruct s as [|c s]; [discriminate|].
  cbn [value_step] in *.
  destruct (c =? 123).
  { destruct (skip_ws s) as [|d r']; [discriminate|].
    destruct (d =? 125); [exact H|].
    destruct (members s) as [[kvs rest]|] eqn:E; [|discriminate].
    now rewrite (Hm s _ E). }
  destruct (c =? 91); [|exact H].
  destruct (skip_ws s) as [|d r']; [discriminate|].
  destruct (d =? 93); [exact H|].
  destruct (elements s) as [[vs rest]|] eqn:E; [|discriminate].
  now rewrite (He s _ E).
Qed.

Lemma elements_step_refines value value' elements elements' :
  refines value value' -> refines elements elements' ->
  refines (elements_step value elements) (elements_step value' elements').
Proof.
  intros Hv He s [vs r] H. unfold elements_step in *.
  destruct (value (skip_ws s)) as [[v r1]|] eqn:Ev; [|discriminate].
  rewrite (Hv _ _ Ev).
  destruct (skip_ws r1) as [|c r']; [discriminate|].
  destruct (c =? 44); [|exact H].
  destruct (elements r') as [[vs' rest]|] eqn:E; [|discriminate].
  now rewrite (He r' _ E).
Qed.

Lemma members_step_refines value value' members members' :
  refines value value' -> refines members members' ->
  refines (members_step value members) (members_step value' members').
Proof.
  intros Hv Hm s [kvs r] H. unfold members_step in *.
  destruct (skip_ws s) as [|q r0]; [discriminate|].
  destruct (q =? 34); [|discriminate].
  destruct (parse_chars r0) as [[k r1]|]; [|discriminate].
  destruct (skip_ws r1) as [|colon r2]; [discriminate|].
  destruct (colon =? 58); [|discriminate].
  destruct (value (skip_ws r2)) as [[v r3]|] eqn:Ev; [|discriminate].
  rewrite (Hv _ _ Ev).
  destruct (skip_ws r3) as [|c r4]; [discriminate|].
  destruct (c =? 44); [|exact H].
  destruct (members r4) as [[kvs' rest]|] eqn:E; [|discriminate].
  now rewrite (Hm r4 _ E).
Qed.

Lemma parse_fuel_S (f : nat) :
  refines (parse_value f) (parse_value (S f))
  /\ refines (parse_elements f) (parse_elements (S f))
  /\ refines (parse_members f) (parse_members (S f)).
Proof.
  induction f as [|f (Hv & He & Hm)].
  - repeat split; intros s x H; discriminate H.
  - repeat split.
    + apply (value_step_refines _ _ _ _ Hm He).
    + apply (elements_step_refines _ _ _ _ Hv He).
    + apply (members_step_refines _ _ _ _ Hv Hm).
Qed.

Lemma parse_value_fuel_le (f f' : nat) :
  (f <= f')%nat -> refines (parse_value f) (parse_value f').
Proof.
  induction 1 as [|f' _ IH]; intros s x H; [exact H|].
  apply (proj1 (parse_fuel_S f')). now apply IH.
Qed.

(** *** What is consumed is balanced *)

Lemma scan_app_to (st st' : LexState) (a b : jsstring) :
  scan st a = Some st' -> scan st (a ++ b) = scan st' b.
Proof. intros H. now rewrite scan_app, H. Qed.

Lemma value_step_scanned members elements :
  well_scanned members -> well_scanned elements ->
  well_scanned (value_step members elements).
Proof.
  intros Hm He s v r H.
  destruct s as [|c s]; [discriminate|]. cbn [value_step] in H.
  destruct (N.eqb_spec c 123) as [->|_].
  { destruct (skip_ws_split s) as (w & Es & Fw).
    destruct (skip_ws s) as [|d r']; [discriminate|].
    destruct (N.eqb_spec d 125) as [->|_].
    - injection H as <- <-. exists (123 :: w ++ [125]).
      split; [simpl; rewrite <- app_assoc; simpl; now rewrite <- Es|].
      split; [discriminate|].
      cbn [scan scan_step N.eqb Pos.eqb]. cbn.
      rewrite (scan_app_to _ _ _ _ (scan_json_ws w Fw)). reflexivity.
    - destruct (members s) as [[kvs rest]|] eqn:E; [|discriminate].
      injection H as <- <-. destruct (Hm s kvs rest E) as (k & -> & _ & Hk).
      exists (123 :: k). split; [reflexivity|]. split; [discriminate|].
      exact Hk. }
  destruct (N.eqb_spec c 91) as [->|_].
  { destruct (skip_ws_split s) as (w & Es & Fw).
    destruct (skip_ws s) as [|d r']; [discriminate|].
    destruct (N.eqb_spec d 93) as [->|_].
    - injection H as <- <-. exists (91 :: w ++ [93]).
      split; [simpl; rewrite <- app_assoc; simpl; now rewrite <- Es|].
      split; [discriminate|].
      cbn.
      rewrite (scan_app_to _ _ _ _ (scan_json_ws w Fw)). reflexivity.
    - destruct (elements s) as [[vs rest]|] eqn:E; [|discriminate].
      injection H as <- <-. destruct (He s vs rest E) as (k & -> & _ & Hk).
      exists (91 :: k). split; [reflexivity|]. split; [discriminate|].
      exact Hk. }
  destruct (N.eqb_spec c 34) as [->|_].
  { destruct (parse_chars s) as [[str rest]|] eqn:E; [|discriminate].
    injection H as <- <-.
    destruct (parse_chars_scan s str rest E) as (k & -> & _ & Hk).
    exists (34 :: k). split; [reflexivity|]. split; [discriminate|].
    exact Hk. }
  destruct (N.eqb_spec c 116) as [->|_].
  { destruct (startsWith s (js "rue")) eqn:E; [|discriminate].
    injection H as <- <-. apply startsWith_app in E as [r0 ->].
    exists (js "true"). repeat split. discriminate. }
  destruct (N.eqb_spec c 102) as [->|_].
  { destruct (startsWith s (js "alse")) eqn:E; [|discriminate].
    injection H as <- <-. apply startsWith_app in E as [r0 ->].
    exists (js "false"). repeat split. discriminate. }
  destruct (N.eqb_spec c 110) as [->|_].
  { destruct (startsWith s (js "ull")) eqn:E; [|discriminate].
    injection H as <- <-. apply startsWith_app in E as [r0 ->].
    exists (js "null"). repeat split. discriminate. }
  destruct (lex_number NStart (c :: s)) as [[lx rest]|] eqn:E; [|discriminate].
  injection H as <- <-.
  destruct (lex_number_scan _ _ _ _ E) as (Es & Hs & Hl).
  exists lx. repeat split; auto.
Qed.

Lemma elements_step_scanned value elements :
  well_scanned value -> well_scanned elements ->
  well_scanned (elements_step value elements).
Proof.
  intros Hv He s vs r H. unfold elements_step in H.
  destruct (skip_ws_split s) as (w & Es & Fw).
  destruct (value (skip_ws s)) as [[v r1]|] eqn:Ev; [|discriminate].
  destruct (Hv _ _ _ Ev) as (cv & Ecv & Ncv & Scv).
  destruct (skip_ws_split r1) as (w1 & E1 & F1).
  destruct (skip_ws r1) as [|c r']; [discriminate|].
  assert (Hne : forall x : jsstring, w ++ cv ++ x <> []).
  { intros x Hx. apply app_eq_nil in Hx as [_ Hx].
    apply app_eq_nil in Hx as [Hx _]. contradiction. }
  destruct (N.eqb_spec c 44) as [->|_].
  - destruct (elements r') as [[vs' rest]|] eqn:E; [|discriminate].
    injection H as <- <-. destruct (He _ _ _ E) as (ce & -> & _ & Sce).
    exists (w ++ cv ++ w1 ++ 44 :: ce).
    split; [|split; [apply Hne|]].
    + rewrite Es, Ecv, E1. now rewrite <- !app_assoc.
    + rewrite (scan_app_to _ _ _ _ (scan_json_ws w Fw)).
      rewrite (scan_app_to _ _ _ _ Scv).
      rewrite (scan_app_to _ _ _ _ (scan_json_ws w1 F1)).
      exact Sce.
  - destruct (N.eqb_spec c 93) as [->|_]; [|discriminate].
    injection H as <- <-.
    exists (w ++ cv ++ w1 ++ [93]).
    split; [|split; [apply Hne|]].
    + rewrite Es, Ecv, E1. now rewrite <- !app_assoc.
    + rewrite (scan_app_to _ _ _ _ (scan_json_ws w Fw)).
      rewrite (scan_app_to _ _ _ _ Scv).
      rewrite (scan_app_to _ _ _ _ (scan_json_ws w1 F1)).
      reflexivity.
Qed.

Lemma members_step_scanned value members :
  well_scanned value -> well_scanned members ->
  well_scanned (members_step value members).
Proof.
  intros Hv Hm s kvs r H. unfold members_step in H.
  destruct (skip_ws_split s) as (w & Es & Fw).
  destruct (skip_ws s) as [|q r0]; [discriminate|].
  destruct (N.eqb_spec q 34) as [->|_]; [|discriminate].
  destruct (parse_chars r0) as [[k r1]|] eqn:Ek; [|discriminate].
  destruct (parse_chars_scan _ _ _ Ek) as (ck & -> & _ & Sck).
  destruct (skip_ws_split r1) as (w1 & E1 & F1).
  destruct (skip_ws r1) as [|colon r2]; [discriminate|].
  destruct (N.eqb_spec colon 58) as [->|_]; [|discriminate].
  destruct (skip_ws_split r2) as (w2 & E2 & F2).
  destruct (value (skip_ws r2)) as [[v r3]|] eqn:Ev; [|discriminate].
  destruct (Hv _ _ _ Ev) as (cv & Ecv & _ & Scv).
  destruct (skip_ws_split r3) as (w3 & E3 & F3).
  destruct (skip_ws r3) as [|c r4]; [discriminate|].
  assert (Hne : forall x : jsstring, w ++ 34 :: x <> []).
  { intros x Hx. apply app_eq_nil in Hx as [_ Hx]. discriminate. }
  destruct (N.eqb_spec c 44) as [->|_].
  - destruct (members r4) as [[kvs' rest]|] eqn:E; [|discriminate].
    injection H as <- <-. destruct (Hm _ _ _ E) as (cm & -> & _ & Scm).
    exists (w ++ 34 :: ck ++ w1 ++ 58 :: w2 ++ cv ++ w3 ++ 44 :: cm).
    split; [|split; [apply Hne|]].
    + rewrite Es, E1, E2, Ecv, E3.
      repeat (rewrite <- ?app_assoc; cbn [app]). reflexivity.
    + rewrite (scan_app_to _ _ _ _ (scan_json_ws w Fw)).
      cbn [scan scan_step N.eqb Pos.eqb].
      rewrite (scan_app_to _ _ _ _ Sck).
      rewrite (scan_app_to _ _ _ _ (scan_json_ws w1 F1)).
      cbn.
      rewrite (scan_app_to _ _ _ _ (scan_json_ws w2 F2)).
      rewrite (scan_app_to _ _ _ _ Scv).
      rewrite (scan_app_to _ _ _ _ (scan_json_ws w3 F3)).
      exact Scm.
  - destruct (N.eqb_spec c 125) as [->|_]; [|discriminate].
    injection H as <- <-.
    exists (w ++ 34 :: ck ++ w1 ++ 58 :: w2 ++ cv ++ w3 ++ [125]).
    split; [|split; [apply Hne|]].
    + rewrite Es, E1, E2, Ecv, E3.
      repeat (rewrite <- ?app_assoc; cbn [app]). reflexivity.
    + rewrite (scan_app_to _ _ _ _ (scan_json_ws w Fw)).
      cbn [scan scan_step N.eqb Pos.eqb].
      rewrite (scan_app_to _ _ _ _ Sck).
      rewrite (scan_app_to _ _ _ _ (scan_json_ws w1 F1)).
      cbn.
      rewrite (scan_app_to _ _ _ _ (scan_json_ws w2 F2)).
      rewrite (scan_app_to _ _ _ _ Scv).
      rewrite (scan_app_to _ _ _ _ (scan_json_ws w3 F3)).
      reflexivity.
Qed.

Lemma parse_scanned (f : nat) :
  well_scanned (parse_value f)
  /\ well_scanned (parse_elements f)
  /\ well_scanned (parse_members f).
Proof.
  induction f as [|f (Hv & He & Hm)].
  - repeat split; intros s v r H; discriminate H.
  - repeat split; cbn [parse_value parse_elements parse_members].
    + now apply value_step_scanned.
    + now apply elements_step_scanned.
    + now apply members_step_scanned.
Qed.

(** Text that [JSON.parse] accepts, read from outside a string literal,
    ends outside one. *)
Lemma JSON_parse_scan (s : jsstring) (v : JsVal) :
  JSON_parse s = Some v -> scan LOut s = Some LOut.
Proof.
  unfold JSON_parse. intros H.
  destruct (skip_ws_split s) as (w & Es & Fw).
  destruct (parse_value _ (skip_ws s)) as [[v' r]|] eqn:E; [|discriminate].
  destruct (proj1 (parse_scanned _) _ _ _ E) as (c & Ec & _ & Sc).
  destruct (skip_ws r) eqn:Er; [|discriminate].
  rewrite Es, Ec.
  rewrite (scan_app_to _ _ _ _ (scan_json_ws w Fw)).
  rewrite (scan_app_to _ _ _ _ Sc).
  apply scan_json_ws. now apply skip_ws_nil.
Qed.

(** *** The fuel of [JSON_parse] is enough *)

Lemma skip_ws_length (s : jsstring) :
  (List.length (skip_ws s) <= List.length s)%nat.
Proof.
  destruct (skip_ws_split s) as (w & E & _).
  rewrite E at 2. rewrite length_app. lia.
Qed.

Lemma well_scanned_shorter {A : Type}
  (item : jsstring -> option (A * jsstring)) (s r : jsstring) (v : A) :
  well_scanned item -> item s = Some (v, r) ->
  (List.length r < List.length s)%nat.
Proof.
  intros Hw H. destruct (Hw _ _ _ H) as (c & -> & Hc & _).
  rewrite length_app. destruct c; [contradiction|]. simpl. lia.
Qed.

Lemma value_step_upto (n : nat) members members' elements elements' :
  (forall s x, (List.length s <= n)%nat ->
               members s = Some x -> members' s = Some x) ->
  (forall s x, (List.length s <= n)%nat ->
               elements s = Some x -> elements' s = Some x) ->
  forall s x, (List.length s <= S n)%nat ->
              value_step members elements s = Some x ->
              value_step members' elements' s = Some x.
Proof.
  intros Hm He s [v r] Hl H. destruct s as [|c s]; [discriminate|].
  simpl in Hl. cbn [value_step] in *.
  destruct (c =? 123).
  { destruct (skip_ws s) as [|d r']; [discriminate|].
    destruct (d =? 125); [exact H|].
    destruct (members s) as [[kvs rest]|] eqn:E; [|discriminate].
    rewrite (Hm s _ ltac:(lia) E). exact H. }
  destruct (c =? 91); [|exact H].
  destruct (skip_ws s) as [|d r']; [discriminate|].
  destruct (d =? 93); [exact H|].
  destruct (elements s) as [[vs rest]|] eqn:E; [|discriminate].
  rewrite (He s _ ltac:(lia) E). exact H.
Qed.

Lemma elements_step_upto (n : nat) value value' elements elements' :
  well_scanned value ->
  (forall s x, (List.length s <= n)%nat ->
               value s = Some x -> value' s = Some x) ->
  (forall s x, (List.length s < n)%nat ->
               elements s = Some x -> elements' s = Some x) ->
  forall s x, (List.length s <= n)%nat ->
              elements_step value elements s = Some x ->
              elements_step value' elements' s = Some x.
Proof.
  intros Hw Hv He s [vs r] Hl H. unfold elements_step in *.
  pose proof (skip_ws_length s) as Ls.
  destruct (value (skip_ws s)) as [[v r1]|] eqn:Ev; [|discriminate].
  pose proof (well_scanned_shorter _ _ _ _ Hw Ev) as L1.
  rewrite (Hv (skip_ws s) (v, r1) ltac:(lia) Ev).
  pose proof (skip_ws_length r1) as L2.
  destruct (skip_ws r1) as [|c r']; [discriminate|]. simpl in L2.
  destruct (c =? 44); [|exact H].
  destruct (elements r') as [[vs' rest]|] eqn:E; [|discriminate].
  rewrite (He r' _ ltac:(lia) E). exact H.
Qed.

Lemma members_step_upto (n : nat) value value' members members' :
  well_scanned value ->
  (forall s x, (List.length s <= n)%nat ->
               value s = Some x -> value' s = Some x) ->
  (forall s x, (List.length s < n)%nat ->
               members s = Some x -> members' s = Some x) ->
  forall s x, (List.length s <= n)%nat ->
              members_step value members s = Some x ->
              members_step value' members' s = Some x.
Proof.
  intros Hw Hv Hm s [kvs r] Hl H. unfold members_step in *.
  pose proof (skip_ws_length s) as Ls.
  destruct (skip_ws s) as [|q r0]; [discriminate|]. simpl in Ls.
  destruct (q =? 34); [|discriminate].
  destruct (parse_chars r0) as [[k r1]|] eqn:Ek; [|discriminate].
  destruct (parse_chars_scan _ _ _ Ek) as (ck & Eck & _ & _).
  assert (L0 : (List.length r1 <= List.length r0)%nat)
    by (rewrite Eck, length_app; lia).
  pose proof (skip_ws_length r1) as L1.
  destruct (skip_ws r1) as [|colon r2]; [discriminate|]. simpl in L1.
  destruct (colon =? 58); [|discriminate].
  pose proof (skip_ws_length r2) as L2.
  destruct (value (skip_ws r2)) as [[v r3]|] eqn:Ev; [|discriminate].
  pose proof (well_scanned_shorter _ _ _ _ Hw Ev) as L3.
  rewrite (Hv (skip_ws r2) (v, r3) ltac:(lia) Ev).
  pose proof (skip_ws_length r3) as L4.
  destruct (skip_ws r3) as [|c r4]; [discriminate|]. simpl in L4.
  destruct (c =? 44); [|exact H].
  destruct (members r4) as [[kvs' rest]|] eqn:E; [|discriminate].
  rewrite (Hm r4 _ ltac:(lia) E). exact H.
Qed.

Lemma parse_fuel_upto (g : nat) :
  (forall f s x, (2 * List.length s < g)%nat ->
                 parse_value f s = Some x -> parse_value g s = Some x)
  /\ (forall f s x, (2 * List.length s + 1 < g)%nat ->
                    parse_elements f s = Some x ->
                    parse_elements g s = Some x)
  /\ (forall f s x, (2 * List.length s + 1 < g)%nat ->
                    parse_members f s = Some x ->
                    parse_members g s = Some x).
Proof.
  induction g as [|g (Hv & He & Hm)].
  - repeat split; intros; lia.
  - repeat split; intros [|f] s x Hl H; try discriminate H;
      cbn [parse_value parse_elements parse_members] in *.
    + destruct s as [|c s0] eqn:Es; [discriminate|]. rewrite <- Es in *.
      apply (value_step_upto (List.length s0)
               (parse_members f) _ (parse_elements f) _); auto.
      * intros s1 y L1 H1. apply (Hm f); [|exact H1].
        subst s. simpl in Hl. lia.
      * intros s1 y L1 H1. apply (He f); [|exact H1].
        subst s. simpl in Hl. lia.
      * subst s. simpl. lia.
    + apply (elements_step_upto (List.length s)
               (parse_value f) _ (parse_elements f) _); auto.
      * apply parse_scanned.
      * intros s1 y L1 H1. apply (Hv f); [lia | exact H1].
      * intros s1 y L1 H1. apply (He f); [lia | exact H1].
    + apply (members_step_upto (List.length s)
               (parse_value f) _ (parse_members f) _); auto.
      * apply parse_scanned.
      * intros s1 y L1 H1. apply (Hv f); [lia | exact H1].
      * intros s1 y L1 H1. apply (Hm f); [lia | exact H1].
Qed.

(** Whatever any amount of fuel reads, the fuel of [JSON_parse] reads. *)
Lemma parse_value_fuel_enough (f : nat) (s : jsstring)
  (x : JsVal * jsstring) :
  parse_value f s = Some x ->
  parse_value (2 * List.length s + 1) s = Some x.
Proof. apply (proj1 (parse_fuel_upto _)). lia. Qed.

Lemma JSON_parse_complete (f : nat) (s r : jsstring) (v : JsVal) :
  parse_value f (skip_ws s) = Some (v, r) ->
  skip_ws r = [] ->
  JSON_parse s = Some v.
Proof.
  intros H Hr. unfold JSON_parse.
  pose proof (skip_ws_length s) as L.
  rewrite (proj1 (parse_fuel_upto (2 * List.length s + 1)) f (skip_ws s)
             (v, r) ltac:(lia) H).
  now rewrite Hr.
Qed.

(** *** Pieces of a record *)

Lemma trimStart_split (s : jsstring) :
  exists w, s = w ++ trimStart s
            /\ Forall (fun c => is_js_whitespace c = true) w.
Proof.
  induction s as [|c s (w & E & F)]; simpl.
  - exists []. split; [reflexivity | constructor].
  - destruct (is_js_whitespace c) eqn:Hc.
    + exists (c :: w). split; [simpl; now rewrite <- E | now constructor].
    + exists []. split; [reflexivity | constructor].
Qed.

(** [trim] removes whitespace from both ends and nothing else. *)
Lemma trim_split (s : jsstring) :
  exists w1 w2,
    s = w1 ++ trim s ++ w2
    /\ Forall (fun c => is_js_whitespace c = true) w1
    /\ Forall (fun c => is_js_whitespace c = true) w2.
Proof.
  destruct (trimStart_split s) as (w1 & E1 & F1).
  destruct (trimStart_split (rev (trimStart s))) as (w2 & E2 & F2).
  exists w1, (rev w2). split; [|split; [exact F1|]].
  - unfold trim. rewrite <- rev_app_distr, <- E2, rev_involutive. exact E1.
  - apply Forall_rev. exact F2.
Qed.

Lemma js_whitespace_plain (c : N) :
  is_js_whitespace c = true -> (c =? 34) = false /\ (c =? 92) = false.
Proof.
  intros H. split; apply N.eqb_neq; intros ->; discriminate H.
Qed.

(** Inside a string literal, text without quote and backslash stays
    inside. *)
Lemma scan_in_plain (s : jsstring) :
  Forall (fun c => (c =? 34) = false /\ (c =? 92) = false) s ->
  scan LIn s = Some LIn.
Proof.
  induction 1 as [|c s [H1 H2] _ IH]; simpl; [reflexivity|].
  now rewrite H1, H2.
Qed.

(** Outside a string literal the end marker cannot be read. *)
Lemma scan_out_done (w x : jsstring) :
  Forall (fun c => is_js_whitespace c = true) w ->
  scan LOut (w ++ js "[DONE]" ++ x) = None.
Proof.
  induction 1 as [|c w Hc _ IH]; [reflexivity|].
  cbn [app scan scan_step].
  rewrite (proj1 (js_whitespace_plain c Hc)).
  destruct (structural c); [exact IH | reflexivity].
Qed.

(** Two readings of one text that start on different sides of a quote stay
    on different sides. *)
Lemma scan_lockstep (s : jsstring) (a b : LexState) :
  scan LOut s = Some a -> scan LIn s = Some b ->
  (a = LOut /\ b <> LOut) \/ (a <> LOut /\ b = LOut).
Proof.
  assert (G : forall s x y a b,
             (x = LOut /\ y = LIn) \/ (x = LIn /\ y = LOut) ->
             scan x s = Some a -> scan y s = Some b ->
             (a = LOut /\ b <> LOut) \/ (a <> LOut /\ b = LOut)).
  { clear. induction s as [|c s IH]; intros x y a b Hxy Ha Hb.
    - simpl in Ha, Hb. injection Ha as <-. injection Hb as <-.
      destruct Hxy as [[-> ->]|[-> ->]]; [left | right]; split;
        congruence.
    - cbn [scan] in Ha, Hb.
      assert (Hs : structural c = true -> (c =? 92) = false)
        by (intros K; apply N.eqb_neq; intros ->; discriminate K).
      destruct Hxy as [[-> ->]|[-> ->]]; cbn [scan_step] in Ha, Hb;
        destruct (c =? 34).
      + apply (IH LIn LOut a b); auto.
      + destruct (structural c) eqn:Ec; [|discriminate].
        rewrite (Hs eq_refl) in Hb. apply (IH LOut LIn a b); auto.
      + apply (IH LOut LIn a b); auto.
      + destruct (structural c) eqn:Ec; [|discriminate].
        rewrite (Hs eq_refl) in Ha. apply (IH LIn LOut a b); auto. }
  intros Ha Hb. apply (G s LOut LIn a b); auto.
Qed.

(** A later occurrence of the prefix in a record lies in its payload. *)
Lemma data_prefix_overlap (j p1 d : jsstring) :
  js "data: " ++ j = p1 ++ js "data: " ++ d ->
  p1 <> [] ->
  exists x, j = x ++ js "data: " ++ d.
Proof.
  intros H Hp. cbn in H.
  do 6 (destruct p1 as [|? p1];
        [try contradiction; cbn in H; congruence|]).
  cbn in H. injection H as _ _ _ _ _ _ H. now exists p1.
Qed.

Lemma value_step_brace members elements (c : N) (s r : jsstring)
  (v : JsVal) :
  value_step members elements (c :: s) = Some (v, r) ->
  (forall o, v = JObj o -> c = 123)
  /\ (c = 123 -> is_number v = false).
Proof.
  intros H. cbn [value_step] in H.
  destruct (N.eqb_spec c 123) as [->|Hc].
  { split; [reflexivity|]. intros _.
    destruct (skip_ws s) as [|d r']; [discriminate|].
    destruct (d =? 125); [injection H as <- <-; reflexivity|].
    destruct (members s) as [[kvs rest]|]; [|discriminate].
    injection H as <- <-. reflexivity. }
  split; [|contradiction]. intros o ->.
  destruct (c =? 91).
  { destruct (skip_ws s) as [|d r']; [discriminate|].
    destruct (d =? 93); [discriminate|].
    destruct (elements s) as [[vs rest]|]; discriminate. }
  destruct (c =? 34); [destruct (parse_chars s) as [[? ?]|]; discriminate|].
  destruct (c =? 116); [destruct (startsWith s (js "rue")); discriminate|].
  destruct (c =? 102); [destruct (startsWith s (js "alse")); discriminate|].
  destruct (c =? 110); [destruct (startsWith s (js "ull")); discriminate|].
  destruct (lex_number NStart (c :: s)) as [[? ?]|]; discriminate.
Qed.

(** No proper prefix of the JSON text of an object is JSON text. *)
Lemma JSON_parse_prefix (j q y : jsstring) (o : list (jsstring * JsVal)) :
  JSON_parse j = Some (JObj o) ->
  ends_in_json_ws j = false ->
  j = q ++ y -> y <> [] ->
  JSON_parse q = None.
Proof.
  intros Hj He -> Hy.
  destruct (JSON_parse q) as [v'|] eqn:Hq; [exfalso|reflexivity].
  unfold JSON_parse in Hj, Hq.
  destruct (parse_value (2 * List.length q + 1) (skip_ws q))
    as [[v1 r1]|] eqn:Eq; [|discriminate].
  destruct (skip_ws r1) eqn:Er1; [|discriminate]. injection Hq as ->.
  destruct (parse_value (2 * List.length (q ++ y) + 1) (skip_ws (q ++ y)))
    as [[v2 r2]|] eqn:Ej; [|discriminate].
  destruct (skip_ws r2) eqn:Er2; [|discriminate]. injection Hj as ->.
  assert (Hs : skip_ws q <> [])
    by (intros E; rewrite E, parse_value_nil in Eq; discriminate).
  rewrite (skip_ws_app q y Hs) in Ej.
  destruct (skip_ws q) as [|c s0] eqn:Es; [contradiction|].
  assert (Hc : c = 123).
  { destruct (2 * List.length (q ++ y) + 1)%nat as [|g]; [discriminate|].
    cbn [parse_value app] in Ej.
    apply (proj1 (value_step_brace _ _ _ _ _ _ Ej) o eq_refl). }
  assert (Hn : is_number v' = false).
  { destruct (2 * List.length q + 1)%nat as [|g]; [discriminate|].
    cbn [parse_value] in Eq.
    apply (proj2 (value_step_brace _ _ _ _ _ _ Eq) Hc). }
  pose proof (proj1 (parse_stable _) _ _ _ y Eq (or_intror Hn)) as Ex.
  apply (parse_value_fuel_le _ (2 * List.length (q ++ y) + 1)) in Ex;
    [|rewrite length_app; lia].
  rewrite Ex in Ej. injection Ej as _ <-.
  apply skip_ws_nil in Er2. apply Forall_app in Er2 as [_ Fy].
  destruct (exists_last Hy) as (y' & a & ->).
  apply Forall_app in Fy as [_ Fa]. inversion Fa as [|? ? Ha _]; subst.
  unfold ends_in_json_ws in He.
  rewrite app_assoc, rev_app_distr in He. simpl in He. congruence.
Qed.

(** Where the prefix occurs inside JSON text, what follows it is neither
    JSON text nor the end marker. *)
Lemma JSON_parse_inside (j x d : jsstring) (v : JsVal) :
  JSON_parse j = Some v ->
  j = x ++ js "data: " ++ d ->
  JSON_parse d = None
  /\ jsstring_eqb (trim d) (js "[DONE]") = false.
Proof.
  intros Hj ->. apply JSON_parse_scan in Hj.
  rewrite scan_app in Hj.
  destruct (scan LOut x) as [st|]; [|discriminate].
  assert (Hd : scan LIn d = Some LOut).
  { destruct st; [discriminate Hj | exact Hj | exact Hj]. }
  split.
  - destruct (JSON_parse d) as [v'|] eqn:E; [exfalso|reflexivity].
    apply JSON_parse_scan in E.
    destruct (scan_lockstep d _ _ E Hd) as [[_ K]|[K _]]; congruence.
  - apply jsstring_eqb_neq. intros Ht.
    destruct (trim_split d) as (w1 & w2 & E & F1 & F2).
    rewrite Ht in E. rewrite E in Hd.
    rewrite scan_in_plain in Hd; [discriminate|].
    apply Forall_app. split; [|apply Forall_app; split].
    + eapply Forall_impl; [|exact F1]. apply js_whitespace_plain.
    + repeat constructor.
    + eapply Forall_impl; [|exact F2]. apply js_whitespace_plain.
Qed.

(** Both pieces of a record cut in two are passed over by the loop. *)
Lemma split_record_pieces (j p1 p2 : jsstring)
  (o : list (jsstring * JsVal)) :
  JSON_parse j = Some (JObj o) ->
  ends_in_json_ws j = false ->
  js "data: " ++ j = p1 ++ p2 ->
  p1 <> [] -> p2 <> [] ->
  line_skipped p1 /\ line_skipped p2.
Proof.
  intros Hj He Hs H1 H2. split.
  - destruct (startsWith p1 (js "data: ")) eqn:Ep; [right | now left].
    split; [exact Ep|].
    apply startsWith_app in Ep as [q ->].
    rewrite <- app_assoc in Hs. apply app_inv_head in Hs.
    change (substring_from 6 (js "data: " ++ q)) with q.
    split; [|now apply (JSON_parse_prefix j q p2 o)].
    apply jsstring_eqb_neq. intros Ht.
    destruct (trim_split q) as (w1 & w2 & E & F1 & _).
    rewrite Ht in E. apply JSON_parse_scan in Hj.
    rewrite Hs, E, <- !app_assoc, scan_out_done in Hj by exact F1.
    discriminate.
  - destruct (startsWith p2 (js "data: ")) eqn:Ep; [right | now left].
    split; [exact Ep|].
    apply startsWith_app in Ep as [d ->].
    change (substring_from 6 (js "data: " ++ d)) with d.
    destruct (data_prefix_overlap j p1 d Hs H1) as [x Ex].
    destruct (JSON_parse_inside j x d _ Hj Ex) as [K1 K2]. now split.
Qed.

(** ** The state under the methods *)

Lemma nth_error_list_set_eq {A : Type} (l : list A) (i : nat) (x y : A) :
  nth_error l i = Some y -> nth_error (list_set i x l) i = Some x.
Proof.
  revert i; induction l as [|z l IH]; intros [|i]; simpl; try discriminate;
    auto.
Qed.

Lemma nth_error_list_set_neq {A : Type} (l : list A) (i j : nat) (x : A) :
  i <> j -> nth_error (list_set i x l) j = nth_error l j.
Proof.
  revert i j; induction l as [|z l IH]; intros [|i] [|j] H; simpl;
    try reflexivity; try congruence.
  apply IH. congruence.
Qed.

Lemma length_list_set {A : Type} (l : list A) (i : nat) (x : A) :
  List.length (list_set i x l) = List.length l.
Proof.
  revert i; induction l as [|z l IH]; intros [|i]; simpl; auto.
Qed.

Section StateLemmas.
Context {B : Browser}.

(** The code-block pass touches the stored contents and the effect log only. *)
Lemma highlightCodeBlocks_frame (c : nat) (a : ChatApp) :
  messages (highlightCodeBlocks c a) = messages a
  /\ isTyping (highlightCodeBlocks c a) = isTyping a
  /\ chatMessages (highlightCodeBlocks c a) = chatMessages a
  /\ sendButton_disabled (highlightCodeBlocks c a) = sendButton_disabled a
  /\ tasks (highlightCodeBlocks c a) = tasks a
  /\ messageInput_value (highlightCodeBlocks c a) = messageInput_value a
  /\ List.length (contents (highlightCodeBlocks c a))
     = List.length (contents a).
Proof.
  unfold highlightCodeBlocks.
  destruct (nth_error (contents a) c); simpl; repeat split; try reflexivity.
  apply length_list_set.
Qed.

Lemma messages_addMessage (c r : jsstring) (h : bool) (now : nat)
  (a : ChatApp) :
  messages (snd (addMessage c r h now a))
  = if h then messages a ++ [mkMessage c r now] else messages a.
Proof.
  unfold addMessage. simpl.
  destruct (jsstring_eqb r (js "assistant"));
    [rewrite (proj1 (highlightCodeBlocks_frame _ _))|];
    destruct h; reflexivity.
Qed.

End StateLemmas.

(** ** The conversation log *)

Section Log.
Context {B : Browser}.

Lemma snapshot_addMessage (c r : jsstring) (now : nat) (a : ChatApp) :
  snapshot (snd (addMessage c r true now a)) = snapshot a ++ [(r, c)].
Proof.
  unfold snapshot. rewrite messages_addMessage, map_app. reflexivity.
Qed.

(** C8. For every sequence of entries appended to the log, the snapshot that
    builds the request payload lists them after the earlier ones, in the
    order of insertion, each with the role and the content it was appended
    with; and the request carries this snapshot behind the system
    instruction. *)
Theorem snapshot_insertion_order (entries : list (jsstring * jsstring * nat))
  (a : ChatApp) :
  snapshot (append_all entries a)
  = snapshot a ++ map (fun e => (snd (fst e), fst (fst e))) entries
  /\ exists url model,
       effects (streamAIResponse_request (append_all entries a))
       = effects (append_all entries a)
         ++ [Fetch url
               (mkRequestBody model
                  ((js "system", systemPrompt)
                   :: snapshot a
                      ++ map (fun e => (snd (fst e), fst (fst e))) entries)
                  (js "0.7") 1000 true)].
Proof.
  assert (E : snapshot (append_all entries a)
              = snapshot a
                ++ map (fun e => (snd (fst e), fst (fst e))) entries).
  { revert a. induction entries as [|[[c r] now] rest IH]; intros a;
      cbn [append_all map fst snd].
    - now rewrite app_nil_r.
    - rewrite IH, snapshot_addMessage, <- app_assoc. reflexivity. }
  split; [exact E|].
  eexists; eexists. unfold streamAIResponse_request. simpl.
  rewrite E. reflexivity.
Qed.

(** C1, as amended. After [clearChat], whatever the log held, the log is
    empty and so is its snapshot; the seeded assistant greeting is the single
    element of the rendered conversation, not an entry of the log. *)
Theorem clearChat_empties_log (a : ChatApp) :
  messages (clearChat a) = []
  /\ snapshot (clearChat a) = []
  /\ chatMessages (clearChat a)
     = [mkMessageElement (js "message assistant") (js "AI")
          (List.length (contents a))]
  /\ nth_error (contents (clearChat a)) (List.length (contents a))
     = Some [Prose greeting].
Proof.
  repeat split. simpl.
  rewrite nth_error_app2, Nat.sub_diag by apply Nat.le_refl. reflexivity.
Qed.

(** C9. When the input field is empty or holds whitespace only,
    [sendMessage] trims it to the empty string and returns at once: the
    state is unchanged, so no message is appended and no request issued. *)
Theorem sendMessage_blank_noop (now : nat) (a : ChatApp) :
  Forall (fun c => is_js_whitespace c = true) (messageInput_value a) ->
  trim (messageInput_value a) = []
  /\ sendMessage now a = a
  /\ messages (sendMessage now a) = messages a
  /\ effects (sendMessage now a) = effects a.
Proof.
  intros H. pose proof (trim_whitespace _ H) as E.
  assert (S : sendMessage now a = a).
  { unfold sendMessage. rewrite E. reflexivity. }
  rewrite S. auto.
Qed.

(** The guard of [sendMessage]: nothing happens while [isTyping] is set. *)
Lemma sendMessage_busy_noop (now : nat) (a : ChatApp) :
  isTyping a = true -> sendMessage now a = a.
Proof.
  intros H. unfold sendMessage. rewrite H, orb_true_r. reflexivity.
Qed.

End Log.

(** C1, as stated, fails: after [clearChat] on a used session the log does
    not consist of one assistant message. *)
Lemma clearChat_log_not_greeting :
  ~ (exists m, messages (clearChat used_session) = [m]
               /\ role m = js "assistant").
Proof.
  intros [m [H _]]. simpl in H. discriminate H.
Qed.

Lemma sendMessage_blank_noop_witness :
  let a := set_messageInput [32; 9; 10; 160] [] used_session in
  Forall (fun c => is_js_whitespace c = true) (messageInput_value a)
  /\ (trim (messageInput_value a) = []
      /\ sendMessage (B := sample_browser) 7 a = a
      /\ messages (sendMessage (B := sample_browser) 7 a) = messages a
      /\ effects (sendMessage (B := sample_browser) 7 a) = effects a).
Proof.
  intros a.
  split; [repeat constructor|].
  apply (sendMessage_blank_noop (B := sample_browser) 7 a).
  repeat constructor.
Defined.

(** ** The record loop *)

Section Stream.
Context {B : Browser}.

Lemma only_rendering_refl (a : ChatApp) : only_rendering a a.
Proof. repeat split. Qed.

Lemma only_rendering_trans (a b c : ChatApp) :
  only_rendering a b -> only_rendering b c -> only_rendering a c.
Proof.
  unfold only_rendering.
  intros (H1 & H2 & H3 & H4 & H5 & H6) (K1 & K2 & K3 & K4 & K5 & K6).
  repeat split; congruence.
Qed.

(** The [try] block appends the fragment of its record and renders. *)
Lemma try_record_spec (target : nat) (d fr : jsstring) (a : ChatApp) :
  fst (try_record target d fr a) = fr ++ record_fragment d
  /\ only_rendering a (snd (try_record target d fr a)).
Proof.
  unfold try_record, record_fragment.
  destruct (JSON_parse d) as [data|]; simpl;
    [|rewrite app_nil_r; split; [reflexivity | repeat split]].
  destruct (delta_content data) as [token|]; simpl;
    [|rewrite app_nil_r; split; [reflexivity | repeat split]].
  destruct (truthy token); simpl;
    [|rewrite app_nil_r; split; [reflexivity | repeat split]].
  destruct (ToString token) as [t|]; simpl;
    [|rewrite app_nil_r]; split; try reflexivity; repeat split.
Qed.


Lemma for_lines_spec (target : nat) (lines : list jsstring) (fr : jsstring)
  (a : ChatApp) :
  fst (for_lines target lines fr a) = fr ++ concat (chunk_fragments lines)
  /\ only_rendering a (snd (for_lines target lines fr a)).
Proof.
  revert fr a. induction lines as [|line rest IH]; intros fr a.
  - simpl. rewrite app_nil_r. split; [reflexivity | apply only_rendering_refl].
  - cbn [for_lines chunk_fragments].
    destruct (startsWith line (js "data: ")); [|apply IH].
    destruct (jsstring_eqb (trim (substring_from 6 line)) (js "[DONE]")).
    + simpl. rewrite app_nil_r.
      split; [reflexivity | apply only_rendering_refl].
    + destruct (try_record_spec target (substring_from 6 line) fr a)
        as [E F].
      destruct (try_record target (substring_from 6 line) fr a) as [fr' a'].
      cbv beta iota. cbn [fst snd] in E, F. subst fr'.
      destruct (IH (fr ++ record_fragment (substring_from 6 line)) a')
        as [E' F'].
      split.
      * rewrite E'. simpl. now rewrite app_assoc.
      * eapply only_rendering_trans; eassumption.
Qed.

(** Records after the end marker of a chunk are not looked at. *)
Lemma for_lines_done (target : nat) (l1 l2 : list jsstring)
  (line fr : jsstring) (a : ChatApp) :
  startsWith line (js "data: ") = true ->
  jsstring_eqb (trim (substring_from 6 line)) (js "[DONE]") = true ->
  for_lines target (l1 ++ line :: l2) fr a
  = for_lines target (l1 ++ [line]) fr a.
Proof.
  intros Hp Hd. revert fr a.
  induction l1 as [|x l1 IH]; intros fr a; cbn [for_lines app].
  - now rewrite Hp, Hd.
  - destruct (startsWith x (js "data: ")); [|apply IH].
    destruct (jsstring_eqb (trim (substring_from 6 x)) (js "[DONE]"));
      [reflexivity|].
    destruct (try_record target (substring_from 6 x) fr a).
    cbv beta iota. apply IH.
Qed.

(** A skipped line adds no fragment, wherever it stands in its chunk. *)
Lemma chunk_fragments_skipped (l1 l2 : list jsstring) (line : jsstring) :
  line_skipped line ->
  concat (chunk_fragments (l1 ++ line :: l2))
  = concat (chunk_fragments (l1 ++ l2)).
Proof.
  intros H. induction l1 as [|x l1 IH]; cbn [chunk_fragments app].
  - destruct H as [H | (Hp & Hd & Hj)].
    + now rewrite H.
    + rewrite Hp, Hd. unfold record_fragment. rewrite Hj. reflexivity.
  - destruct (startsWith x (js "data: ")); [|exact IH].
    destruct (jsstring_eqb (trim (substring_from 6 x)) (js "[DONE]"));
      [reflexivity|].
    simpl. now rewrite IH.
Qed.

(** Text that parses as JSON is not the end marker. *)
Lemma parsed_not_done (d : jsstring) (v : JsVal) :
  JSON_parse d = Some v ->
  jsstring_eqb (trim d) (js "[DONE]") = false.
Proof.
  intros H. apply jsstring_eqb_neq. intros Ht.
  destruct (trim_split d) as (w1 & w2 & E & F1 & _).
  rewrite Ht in E. apply JSON_parse_scan in H.
  rewrite E, scan_out_done in H by exact F1. discriminate.
Qed.

(** The token of a valid record is its delta fragment. *)
Lemma delta_fragment_token (data : JsVal) (f : jsstring) :
  delta_fragment data f -> delta_content data = Normal (JStr f).
Proof.
  intros (props & first & rest & delta & -> & Hc & Hd & Hf).
  unfold delta_content. cbn [get_member bindC]. rewrite Hc.
  cbn [get_index0 bindC opt_member get_member]. rewrite Hd.
  cbn [bindC opt_member get_member]. rewrite Hf.
  cbn [truthy]. destruct f; reflexivity.
Qed.

(** What the loop appends for a valid record is its delta fragment. *)
Lemma record_fragment_delta (d : jsstring) (data : JsVal) (f : jsstring) :
  JSON_parse d = Some data ->
  delta_fragment data f ->
  record_fragment d = f.
Proof.
  intros Hj Hf. unfold record_fragment.
  rewrite Hj, (delta_fragment_token data f Hf).
  cbn [truthy ToString]. destruct f; reflexivity.
Qed.

Lemma delta_value_fragment (f : jsstring) : delta_fragment (delta_value f) f.
Proof.
  exists [(js "choices",
           JArr [JObj [(js "delta", JObj [(js "content", JStr f)])]])],
    [(js "delta", JObj [(js "content", JStr f)])], [],
    [(js "content", JStr f)].
  repeat split.
Qed.

(** The loop appends to the buffer what the lines of a chunk carry. *)
Lemma lines_carry_fragments (lines fs : list jsstring) :
  lines_carry lines fs ->
  concat (chunk_fragments lines) = concat fs.
Proof.
  induction 1 as [|line rest data f fs Hp Hj Hf _ IH
                  |line rest fs Hp Hd Hj _ IH
                  |line rest fs Hp _ IH
                  |line rest Hp Hd];
    cbn [chunk_fragments]; try rewrite Hp.
  - reflexivity.
  - rewrite (parsed_not_done _ data Hj).
    rewrite (record_fragment_delta _ data f Hj Hf).
    cbn [concat]. now rewrite IH.
  - rewrite Hd. unfold record_fragment. rewrite Hj. exact IH.
  - exact IH.
  - now rewrite Hd.
Qed.

Lemma stream_carries_fragments (chunks fs : list jsstring) :
  stream_carries chunks fs ->
  concat (stream_fragments chunks) = concat fs.
Proof.
  induction 1 as [|c cs fs fss Hc _ IH]; [reflexivity|].
  unfold stream_fragments in *. cbn [flat_map].
  rewrite !concat_app, IH. now rewrite (lines_carry_fragments _ fs Hc).
Qed.

(** Reading a whole body: every chunk is run through the loop, then the
    final buffer is committed, if it is not empty.  No error bubble or error
    entry appears, and the busy flag and the send control are not touched. *)
Lemma run_body (chunks : list jsstring) (t target : nat) (fr : jsstring)
  (now : nat) (a : ChatApp) :
  nth_error (tasks a) t = Some (AwaitRead target fr) ->
  messages (run a (body_inputs t chunks now))
  = messages a ++ committed (fr ++ concat (stream_fragments chunks)) now
  /\ chatMessages (run a (body_inputs t chunks now)) = chatMessages a
  /\ isTyping (run a (body_inputs t chunks now)) = isTyping a
  /\ sendButton_disabled (run a (body_inputs t chunks now))
     = sendButton_disabled a
  /\ nth_error (tasks (run a (body_inputs t chunks now))) t = Some Settled.
Proof.
  revert fr a. induction chunks as [|c rest IH]; intros fr a H.
  - unfold body_inputs, run. cbn [map app fold_left step].
    rewrite H. unfold streamAIResponse_finish.
    destruct (highlightCodeBlocks_frame target
                (match fr with
                 | [] => set_tasks (list_set t Settled (tasks a)) a
                 | _ :: _ =>
                     set_messages
                       (messages (set_tasks (list_set t Settled (tasks a)) a)
                        ++ [mkMessage fr (js "assistant") now])
                       (set_tasks (list_set t Settled (tasks a)) a)
                 end)) as (E1 & E2 & E3 & E4 & E5 & _).
    rewrite E1, E2, E3, E4, E5. simpl. rewrite app_nil_r.
    destruct fr; simpl; repeat split;
      try (now rewrite app_nil_r);
      eapply nth_error_list_set_eq; eassumption.
  - unfold body_inputs, run in *. cbn [map app fold_left].
    cbn [step]. rewrite H. unfold read_chunk.
    destruct (for_lines_spec target (split_nn c) fr a) as [E F].
    destruct (for_lines target (split_nn c) fr a) as [fr' a1].
    cbv beta iota. cbn [fst snd] in E, F.
    destruct F as (F1 & F2 & F3 & F4 & F5 & F6).
    specialize (IH fr'
      (set_tasks (list_set t (AwaitRead target fr') (tasks a1)) a1)).
    destruct IH as (I1 & I2 & I3 & I4 & I5).
    { simpl. rewrite F5. eapply nth_error_list_set_eq; eassumption. }
    rewrite I1, I2, I3, I4, I5. simpl.
    rewrite F1, F2, F3, F4. subst fr'.
    rewrite concat_app, <- !app_assoc. repeat split.
Qed.

End Stream.

(** ** One exchange *)

Section Exchange.
Context {B : Browser}.

Lemma addMessage_frame (c r : jsstring) (h : bool) (now : nat)
  (a : ChatApp) :
  isTyping (snd (addMessage c r h now a)) = isTyping a
  /\ sendButton_disabled (snd (addMessage c r h now a))
     = sendButton_disabled a
  /\ tasks (snd (addMessage c r h now a)) = tasks a
  /\ messageInput_value (snd (addMessage c r h now a))
     = messageInput_value a.
Proof.
  unfold addMessage. simpl.
  destruct (jsstring_eqb r (js "assistant")).
  - match goal with
    | |- context [highlightCodeBlocks ?c ?x] =>
        destruct (highlightCodeBlocks_frame c x)
          as (_ & E2 & _ & E4 & E5 & E6 & _)
    end.
    rewrite E2, E4, E5, E6. destruct h; repeat split.
  - destruct h; repeat split.
Qed.

Lemma streamAIResponse_request_frame (a : ChatApp) :
  messages (streamAIResponse_request a) = messages a
  /\ isTyping (streamAIResponse_request a) = isTyping a
  /\ sendButton_disabled (streamAIResponse_request a) = sendButton_disabled a
  /\ tasks (streamAIResponse_request a) = tasks a ++ [AwaitFetch].
Proof. repeat split. Qed.

Lemma showTypingIndicator_frame (a : ChatApp) :
  messages (showTypingIndicator a) = messages a
  /\ isTyping (showTypingIndicator a) = true
  /\ sendButton_disabled (showTypingIndicator a) = true
  /\ tasks (showTypingIndicator a) = tasks a.
Proof. repeat split. Qed.

(** A submission that passes the guard: the user message is logged, the
    busy flag is set, the send control is disabled, and one request is
    pending. *)
Lemma sendMessage_accepted (now : nat) (a : ChatApp) :
  isTyping a = false ->
  trim (messageInput_value a) <> [] ->
  messages (sendMessage now a)
  = messages a ++ [mkMessage (trim (messageInput_value a)) (js "user") now]
  /\ isTyping (sendMessage now a) = true
  /\ sendButton_disabled (sendMessage now a) = true
  /\ tasks (sendMessage now a) = tasks a ++ [AwaitFetch].
Proof.
  intros Ht Hm. unfold sendMessage.
  apply jsstring_eqb_neq in Hm. rewrite Hm, Ht. cbn [orb].
  set (a1 := snd (addMessage (trim (messageInput_value a)) (js "user") true
                    now a)).
  set (a2 := set_messageInput [] (js "auto") a1).
  destruct (streamAIResponse_request_frame (showTypingIndicator a2))
    as (R1 & R2 & R3 & R4).
  destruct (showTypingIndicator_frame a2) as (S1 & S2 & S3 & S4).
  rewrite R1, R2, R3, R4, S1, S2, S3, S4.
  change (messages a2) with (messages a1).
  change (tasks a2) with (tasks a1).
  unfold a1. rewrite messages_addMessage.
  destruct (addMessage_frame (trim (messageInput_value a)) (js "user") true
              now a) as (_ & _ & E3 & _).
  rewrite E3. repeat split.
Qed.

(** The [catch] block: one assistant entry with the apology, the busy flag
    cleared, the send control enabled. *)
Lemma sendMessage_catch_spec (now : nat) (a : ChatApp) :
  messages (sendMessage_catch now a)
  = messages a ++ [mkMessage errorText (js "assistant") now]
  /\ isTyping (sendMessage_catch now a) = false
  /\ sendButton_disabled (sendMessage_catch now a) = false
  /\ tasks (sendMessage_catch now a) = tasks a
  /\ messageInput_value (sendMessage_catch now a) = messageInput_value a.
Proof.
  unfold sendMessage_catch, emit.
  cbn [messages isTyping sendButton_disabled tasks messageInput_value].
  rewrite messages_addMessage.
  destruct (addMessage_frame errorText (js "assistant") true now
              (hideTypingIndicator a)) as (E1 & E2 & E3 & E4).
  rewrite E1, E2, E3, E4. repeat split.
Qed.

(** When the response headers arrive with a success status, the busy flag
    is cleared and the send control enabled, while the call goes on to read
    the body. *)
Lemma fetch_ok_releases_flag (t : nat) (status : N) (now : nat)
  (a : ChatApp) :
  nth_error (tasks a) t = Some AwaitFetch ->
  response_ok status = true ->
  isTyping (step a (FetchResolved t status now)) = false
  /\ sendButton_disabled (step a (FetchResolved t status now)) = false
  /\ exists target,
       nth_error (tasks (step a (FetchResolved t status now))) t
       = Some (AwaitRead target []).
Proof.
  intros H Hs. cbn [step]. rewrite H, Hs.
  destruct (addMessage_frame [] (js "assistant") false now a)
    as (_ & _ & E3 & _).
  destruct (addMessage [] (js "assistant") false now a) as [target a1].
  cbn [snd] in E3. repeat split. exists target.
  cbn [tasks set_tasks hideTypingIndicator set_typing]. rewrite E3.
  eapply nth_error_list_set_eq. exact H.
Qed.

(** C7. When the endpoint answers with a status outside 200 to 299 (500,
    say), the error is caught in [sendMessage]: after the user entry exactly
    one assistant entry, the apology, is appended to the log; the busy flag
    is false again and the send control enabled; the call has returned; and
    the next submission is accepted. *)
Theorem http_error_recovers (now now' now'' : nat) (status : N)
  (a : ChatApp) :
  isTyping a = false ->
  trim (messageInput_value a) <> [] ->
  response_ok status = false ->
  let t := List.length (tasks a) in
  let a' := run a [Submit now; FetchResolved t status now'] in
  messages a'
  = messages a
    ++ [mkMessage (trim (messageInput_value a)) (js "user") now;
        mkMessage errorText (js "assistant") now']
  /\ isTyping a' = false
  /\ sendButton_disabled a' = false
  /\ nth_error (tasks a') t = Some Settled
  /\ forall text height,
       trim text <> [] ->
       messages (run a' [TypeText text height; Submit now''])
       = messages a' ++ [mkMessage (trim text) (js "user") now''].
Proof.
  intros Ht Hm Hs t a'.
  destruct (sendMessage_accepted now a Ht Hm) as (S1 & S2 & S3 & S4).
  assert (Hn : nth_error (tasks (sendMessage now a)) t = Some AwaitFetch).
  { rewrite S4. unfold t.
    rewrite nth_error_app2, Nat.sub_diag by apply Nat.le_refl. reflexivity. }
  assert (Ea : a' = sendMessage_catch now'
                 (set_tasks (list_set t Settled (tasks (sendMessage now a)))
                    (sendMessage now a))).
  { unfold a', run. cbn [fold_left step]. rewrite Hn, Hs. reflexivity. }
  destruct (sendMessage_catch_spec now'
              (set_tasks (list_set t Settled (tasks (sendMessage now a)))
                 (sendMessage now a))) as (C1 & C2 & C3 & C4 & C5).
  rewrite <- Ea in C1, C2, C3, C4, C5.
  assert (Em : messages a'
               = messages a
                 ++ [mkMessage (trim (messageInput_value a)) (js "user") now;
                     mkMessage errorText (js "assistant") now']).
  { rewrite C1. simpl. rewrite S1, <- app_assoc. reflexivity. }
  repeat split; try assumption.
  - rewrite C4. simpl. eapply nth_error_list_set_eq. exact Hn.
  - intros text height Htext. unfold run. cbn [fold_left step].
    destruct (sendMessage_accepted now''
                (set_messageInput text height a')) as (N1 & _).
    + exact C2.
    + exact Htext.
    + rewrite N1. reflexivity.
Qed.


(** C5. The records carrying [Hel], [lo, ] and [world!], followed by the end
    marker, commit the text [Hello, world!], and the reading of this body
    appends exactly one entry to the log, the assistant message; both when
    every record arrives in a chunk of its own and when all arrive in one. *)
Theorem hello_world_stream (t target now : nat) (a : ChatApp) :
  nth_error (tasks a) t = Some (AwaitRead target []) ->
  let records :=
    [delta_record "Hel" ++ nn; delta_record "lo, " ++ nn;
     delta_record "world!" ++ nn; done_record ++ nn] in
  messages (run a (body_inputs t records now))
  = messages a ++ [mkMessage (js "Hello, world!") (js "assistant") now]
  /\ messages (run a (body_inputs t [concat records] now))
     = messages a ++ [mkMessage (js "Hello, world!") (js "assistant") now].
Proof.
  intros H records. split.
  - destruct (run_body records t target [] now a H) as (E & _). rewrite E.
    f_equal.
  - destruct (run_body [concat records] t target [] now a H) as (E & _).
    rewrite E.
    f_equal.
Qed.

(** C10, as amended. Every chunk is split and run on its own.  Let a
    record, the prefix followed by the JSON text of an object (text that
    parses to an object and ends at its closing brace, with no whitespace
    after it), be cut in two non-empty pieces, the first being the last piece
    of one chunk and the second the first piece of the next.  Then each piece
    lacks the prefix or fails to parse, neither being the end marker, so both
    are passed over; the body is read to its end without an apology being
    logged or displayed; and the committed text is what the other lines add:
    when these carry the delta fragments [fpre], [fa], [fb] and [fpost], it
    is the text read before followed by the concatenation of these
    fragments, in order, the fragment of the cut record not among them. *)
Theorem split_record_lost (pre post la lb : list jsstring)
  (cA cB j p1 p2 : jsstring) (o : list (jsstring * JsVal))
  (t target now : nat) (fr : jsstring) (a : ChatApp) :
  nth_error (tasks a) t = Some (AwaitRead target fr) ->
  JSON_parse j = Some (JObj o) ->
  ends_in_json_ws j = false ->
  js "data: " ++ j = p1 ++ p2 ->
  p1 <> [] -> p2 <> [] ->
  split_nn cA = la ++ [p1] ->
  split_nn cB = p2 :: lb ->
  let a' := run a (body_inputs t (pre ++ cA :: cB :: post) now) in
  line_skipped p1
  /\ line_skipped p2
  /\ messages a'
     = messages a
       ++ committed
            (fr ++ concat (stream_fragments pre)
                ++ concat (chunk_fragments la)
                ++ concat (chunk_fragments lb)
                ++ concat (stream_fragments post)) now
  /\ (forall fpre fa fb fpost,
        stream_carries pre fpre ->
        lines_carry la fa ->
        lines_carry lb fb ->
        stream_carries post fpost ->
        messages a'
        = messages a
          ++ committed
               (fr ++ concat fpre ++ concat fa ++ concat fb ++ concat fpost)
               now)
  /\ chatMessages a' = chatMessages a
  /\ isTyping a' = isTyping a
  /\ nth_error (tasks a') t = Some Settled.
Proof.
  intros H Hj He Hs H1 H2 HA HB a'.
  destruct (split_record_pieces j p1 p2 o Hj He Hs H1 H2) as [K1 K2].
  destruct (run_body (pre ++ cA :: cB :: post) t target fr now a H)
    as (E1 & E2 & E3 & _ & E5).
  fold a' in E1, E2, E3, E5.
  assert (E : messages a'
              = messages a
                ++ committed
                     (fr ++ concat (stream_fragments pre)
                         ++ concat (chunk_fragments la)
                         ++ concat (chunk_fragments lb)
                         ++ concat (stream_fragments post)) now).
  { rewrite E1. unfold stream_fragments.
    rewrite flat_map_app. cbn [flat_map]. rewrite HA, HB, !concat_app.
    rewrite (chunk_fragments_skipped la [] p1 K1), app_nil_r.
    rewrite (chunk_fragments_skipped [] lb p2 K2). reflexivity. }
  refine (conj K1 (conj K2 (conj E (conj _ (conj E2 (conj E3 E5)))))).
  intros fpre fa fb fpost Kpre Ka Kb Kpost. rewrite E.
  rewrite (stream_carries_fragments pre fpre Kpre).
  rewrite (lines_carry_fragments la fa Ka).
  rewrite (lines_carry_fragments lb fb Kb).
  rewrite (stream_carries_fragments post fpost Kpost). reflexivity.
Qed.

End Exchange.

(** ** The code-block pass *)

Section CodeBlocks.
Context {B : Browser}.

Lemma copy_button_class :
  has_class (js "copy-button") (js "copy-button") = true.
Proof. reflexivity. Qed.

Lemma lang_indicator_class :
  has_class (js "copy-button") (js "lang-indicator") = false.
Proof. reflexivity. Qed.

(** After the callback the selector finds a [.copy-button] below the [<pre>]. *)
Lemma highlight_block_has_button (p : PreElem) :
  has_copy_button (highlight_block p) = true.
Proof.
  unfold highlight_block.
  destruct (has_copy_button (mkPre (hljs_highlightElement (code p))
                               (appended p))) eqn:E; [exact E|].
  unfold has_copy_button in *. cbn [code appended] in *.
  rewrite existsb_app. cbn [existsb langIndicator copyButton e_className].
  rewrite copy_button_class, !orb_true_r. reflexivity.
Qed.

(** The callback appends at most one copy button. *)
Lemma highlight_block_buttons (p : PreElem) :
  (copy_buttons (highlight_block p) <= S (copy_buttons p))%nat.
Proof.
  unfold highlight_block.
  destruct (has_copy_button (mkPre (hljs_highlightElement (code p))
                               (appended p)));
    unfold copy_buttons; cbn [appended]; [apply Nat.le_succ_diag_r|].
  rewrite filter_app, length_app.
  cbn [filter langIndicator copyButton e_className].
  rewrite copy_button_class, lang_indicator_class. simpl. lia.
Qed.

Lemma highlight_block_again (p : PreElem) :
  (forall c, hljs_highlightElement (hljs_highlightElement c)
             = hljs_highlightElement c) ->
  highlight_block (highlight_block p) = highlight_block p.
Proof.
  intros Hh.
  assert (Ec : code (highlight_block p) = hljs_highlightElement (code p)).
  { unfold highlight_block.
    destruct (has_copy_button (mkPre (hljs_highlightElement (code p))
                                 (appended p))); reflexivity. }
  pose proof (highlight_block_has_button p) as Hb.
  unfold highlight_block at 1. rewrite Ec, Hh.
  assert (Ep : mkPre (hljs_highlightElement (code p))
                 (appended (highlight_block p)) = highlight_block p)
    by (rewrite <- Ec; destruct (highlight_block p); reflexivity).
  rewrite Ep, Hb. reflexivity.
Qed.

Lemma highlight_blocks_again (bs : list Block) :
  (forall c, hljs_highlightElement (hljs_highlightElement c)
             = hljs_highlightElement c) ->
  highlight_blocks (highlight_blocks bs) = highlight_blocks bs.
Proof.
  intros Hh. unfold highlight_blocks. rewrite map_map.
  apply map_ext. intros [p|h]; [|reflexivity].
  now rewrite highlight_block_again.
Qed.

Lemma copy_button_not_label :
  has_class (js "lang-indicator") (js "copy-button") = false.
Proof. reflexivity. Qed.

Lemma lang_indicator_label :
  has_class (js "lang-indicator") (js "lang-indicator") = true.
Proof. reflexivity. Qed.

(** The callback appends at most one language label. *)
Lemma highlight_block_labels (p : PreElem) :
  (lang_labels (highlight_block p) <= S (lang_labels p))%nat.
Proof.
  unfold highlight_block.
  destruct (has_copy_button (mkPre (hljs_highlightElement (code p))
                               (appended p)));
    unfold lang_labels; cbn [appended]; [apply Nat.le_succ_diag_r|].
  rewrite filter_app, length_app.
  cbn [filter langIndicator copyButton e_className].
  rewrite copy_button_not_label, lang_indicator_label. simpl. lia.
Qed.

(** What the callback appends, by the outcome of the selector. *)
Lemma highlight_block_appended (p : PreElem) :
  code (highlight_block p) = hljs_highlightElement (code p)
  /\ exists added,
       appended (highlight_block p) = appended p ++ added
       /\ (has_copy_button (mkPre (code (highlight_block p)) (appended p))
           = true -> added = [])
       /\ (has_copy_button (mkPre (code (highlight_block p)) (appended p))
           = false ->
           added = [mkElem (js "div") (js "lang-indicator")
                      (remove_first (js "language-")
                         (first_word (className (code (highlight_block p)))));
                    mkElem (js "button") (js "copy-button") (js "Copy")]).
Proof.
  unfold highlight_block.
  destruct (has_copy_button (mkPre (hljs_highlightElement (code p))
                               (appended p))) eqn:E;
    cbn [code appended]; (split; [reflexivity|]); rewrite E.
  - exists []. rewrite app_nil_r.
    split; [reflexivity|]. split; [reflexivity | discriminate].
  - eexists. split; [reflexivity|].
    split; [discriminate | intros _; reflexivity].
Qed.

Lemma highlight_blocks_finalized (bs : list Block) :
  Forall2 finalized bs (highlight_blocks bs).
Proof.
  induction bs as [|[p|h] bs IH]; simpl; constructor; try exact IH.
  - destruct (highlight_block_appended p) as [Ec Ha].
    refine (conj Ec (conj Ha (conj _ (conj _ _)))).
    + apply highlight_block_has_button.
    + apply highlight_block_buttons.
    + apply highlight_block_labels.
  - reflexivity.
Qed.

(** Every pass calls the highlighter on every region. *)
Lemma highlight_calls_length (bs : list Block) :
  List.length (highlight_calls (highlight_blocks bs))
  = List.length (highlight_calls bs).
Proof.
  induction bs as [|[p|h] bs IH]; [reflexivity| |];
    cbn [highlight_blocks map highlight_calls List.length];
    [f_equal|]; exact IH.
Qed.

Lemma list_set_list_set {A : Type} (l : list A) (i : nat) (x y : A) :
  list_set i x (list_set i y l) = list_set i x l.
Proof.
  revert i; induction l as [|z l IH]; intros [|i]; simpl; try reflexivity.
  now rewrite IH.
Qed.

(** C3, as amended. Over a container whose blocks are [bs], with a
    highlighter that leaves an element it has processed as it is: the second
    pass leaves the content as the first pass made it, so it appends nothing.
    In that content prose is as it was, and every fenced region holds the
    highlighted [<code>] and what was appended to it before, followed by
    nothing if its [<pre>] had a [.copy-button] below it, and by exactly one
    language label and one copy button otherwise; so every region has a
    [.copy-button] below its [<pre>] and has gained at most one copy button
    and at most one language label.  But the highlighter is called in both
    passes, once for every region each time, the second time on the regions
    already processed: only the copy button and the language label are
    guarded by a check. *)
Theorem highlightCodeBlocks_twice (container : nat) (bs : list Block)
  (a : ChatApp) :
  (forall c, hljs_highlightElement (hljs_highlightElement c)
             = hljs_highlightElement c) ->
  nth_error (contents a) container = Some bs ->
  let a1 := highlightCodeBlocks container a in
  let a2 := highlightCodeBlocks container a1 in
  contents a2 = contents a1
  /\ nth_error (contents a1) container = Some (highlight_blocks bs)
  /\ Forall2 finalized bs (highlight_blocks bs)
  /\ effects a1 = effects a ++ highlight_calls bs
  /\ effects a2 = effects a1 ++ highlight_calls (highlight_blocks bs)
  /\ List.length (highlight_calls (highlight_blocks bs))
     = List.length (highlight_calls bs).
Proof.
  intros Hh Hn a1 a2.
  assert (E1 : a1 = mkChatApp (messages a) (isTyping a) (chatMessages a)
                      (list_set container (highlight_blocks bs) (contents a))
                      (messageInput_value a) (messageInput_height a)
                      (sendButton_disabled a) (typingIndicator_display a)
                      (lmStudioUrl_value a) (modelName_value a) (tasks a)
                      (effects a ++ highlight_calls bs)).
  { unfold a1, highlightCodeBlocks. rewrite Hn. reflexivity. }
  assert (Hn1 : nth_error (contents a1) container
                = Some (highlight_blocks bs)).
  { rewrite E1. cbn [contents]. eapply nth_error_list_set_eq. exact Hn. }
  assert (E2 : a2 = mkChatApp (messages a1) (isTyping a1) (chatMessages a1)
                      (list_set container
                         (highlight_blocks (highlight_blocks bs))
                         (contents a1))
                      (messageInput_value a1) (messageInput_height a1)
                      (sendButton_disabled a1) (typingIndicator_display a1)
                      (lmStudioUrl_value a1) (modelName_value a1) (tasks a1)
                      (effects a1 ++ highlight_calls (highlight_blocks bs))).
  { unfold a2, highlightCodeBlocks. rewrite Hn1. reflexivity. }
  repeat split.
  - rewrite E2. cbn [contents]. rewrite highlight_blocks_again by exact Hh.
    rewrite E1. cbn [contents]. apply list_set_list_set.
  - exact Hn1.
  - apply highlight_blocks_finalized.
  - rewrite E1. reflexivity.
  - rewrite E2. reflexivity.
  - apply highlight_calls_length.
Qed.

End CodeBlocks.

Lemma sample_hljs_again (c : CodeElem) :
  sample_hljs (sample_hljs c) = sample_hljs c.
Proof. reflexivity. Qed.

Lemma highlightCodeBlocks_twice_witness :
  let bs := [Prose (js "<p>Try:</p>"); Fence sample_fence] in
  let a1 := highlightCodeBlocks (B := sample_browser) 0 fenced_session in
  let a2 := highlightCodeBlocks (B := sample_browser) 0 a1 in
  (forall c, sample_hljs (sample_hljs c) = sample_hljs c)
  /\ nth_error (contents fenced_session) 0 = Some bs
  /\ (contents a2 = contents a1
      /\ nth_error (contents a1) 0
         = Some (highlight_blocks (B := sample_browser) bs)
      /\ Forall2 (finalized (B := sample_browser)) bs
           (highlight_blocks (B := sample_browser) bs)
      /\ effects a1 = effects fenced_session ++ highlight_calls bs
      /\ effects a2
         = effects a1
           ++ highlight_calls (highlight_blocks (B := sample_browser) bs)
      /\ List.length
           (highlight_calls (highlight_blocks (B := sample_browser) bs))
         = List.length (highlight_calls bs)).
Proof.
  intros bs a1 a2.
  split; [exact sample_hljs_again|]. split; [reflexivity|].
  apply (highlightCodeBlocks_twice (B := sample_browser) 0 bs fenced_session);
    [exact sample_hljs_again | reflexivity].
Defined.

(** On the sample page one pass gives the fenced region the highlighted
    [<code>], one language label reading [js] and one copy button, and a
    second pass gives the same content. *)
Example highlightCodeBlocks_sample_content :
  let a1 := highlightCodeBlocks (B := sample_browser) 0 fenced_session in
  let a2 := highlightCodeBlocks (B := sample_browser) 0 a1 in
  contents a1
  = [[Prose (js "<p>Try:</p>");
      Fence (mkPre (mkCode (js "language-js hljs") (js "let x = 1;")
                      (js "let x = 1;") [])
               [mkElem (js "div") (js "lang-indicator") (js "js");
                mkElem (js "button") (js "copy-button") (js "Copy")])]]
  /\ contents a2 = contents a1.
Proof. vm_compute. split; reflexivity. Qed.

(** A region whose [<code>] holds an element of class [copy-button] in its
    own markup, under a highlighter that keeps the markup: the selector finds
    that element, and the pass appends neither label nor button. *)
Example copy_button_inside_code :
  let keeping := Build_Browser sample_marked (fun c => c) sample_truthy
                   (fun l => l) in
  let c := mkCode (js "language-html")
             (js "x") (js "<span class='copy-button'>x</span>")
             [js "copy-button"] in
  highlight_block (B := keeping) (mkPre c []) = mkPre c [].
Proof. vm_compute. reflexivity. Qed.

(** C3, as stated, fails: over a region that a first pass has processed, the
    second pass calls the highlighter again, so that highlighting has been
    applied to the region twice, not once. *)
Lemma highlight_not_skipped_on_second_pass :
  let a1 := highlightCodeBlocks (B := sample_browser) 0 fenced_session in
  let a2 := highlightCodeBlocks (B := sample_browser) 0 a1 in
  highlights a2
  = [HljsHighlight (code sample_fence);
     HljsHighlight (sample_hljs (code sample_fence))]
  /\ List.length (highlights a2) <> 1%nat.
Proof. vm_compute. split; [reflexivity | discriminate]. Qed.

(** ** Runs of the sample page *)

Lemma http_error_recovers_witness :
  let a := set_messageInput (js " hello ") [] used_session in
  isTyping a = false
  /\ trim (messageInput_value a) <> []
  /\ response_ok 500 = false
  /\ (let a' := run (B := sample_browser) a
                  [Submit 5; FetchResolved 0 500 6] in
      messages a'
      = messages a
        ++ [mkMessage (js "hello") (js "user") 5%nat;
            mkMessage errorText (js "assistant") 6%nat]
      /\ isTyping a' = false
      /\ sendButton_disabled a' = false
      /\ nth_error (tasks a') 0 = Some Settled
      /\ forall text height,
           trim text <> [] ->
           messages (run (B := sample_browser) a'
                       [TypeText text height; Submit 9])
           = messages a' ++ [mkMessage (trim text) (js "user") 9%nat]).
Proof.
  intros a.
  split; [vm_compute; reflexivity|]. split; [vm_compute; discriminate|].
  split; [vm_compute; reflexivity|].
  apply (http_error_recovers (B := sample_browser) 5 6 9 500 a);
    [vm_compute; reflexivity | vm_compute; discriminate
    | vm_compute; reflexivity].
Defined.

Lemma hello_world_stream_witness :
  nth_error (tasks streaming_session) 0 = Some (AwaitRead 1 [])
  /\ (let records :=
        [delta_record "Hel" ++ nn; delta_record "lo, " ++ nn;
         delta_record "world!" ++ nn; done_record ++ nn] in
      messages (run (B := sample_browser) streaming_session
                  (body_inputs 0 records 3))
      = messages streaming_session
        ++ [mkMessage (js "Hello, world!") (js "assistant") 3%nat]
      /\ messages (run (B := sample_browser) streaming_session
                     (body_inputs 0 [concat records] 3))
         = messages streaming_session
           ++ [mkMessage (js "Hello, world!") (js "assistant") 3%nat]).
Proof.
  split; [vm_compute; reflexivity|].
  apply (hello_world_stream (B := sample_browser) 0 1 3 streaming_session).
  vm_compute; reflexivity.
Defined.


(** The committed text of the witness above is [ok]. *)
Example malformed_record_example :
  let bad := jq "data: {'bad json'" in
  let c := delta_record "o" ++ nn ++ bad ++ nn ++ delta_record "k" in
  map content
    (messages (run (B := sample_browser) streaming_session
                 (body_inputs 0 [c; done_record] 3)))
  = [js "hi"; js "ok"].
Proof. vm_compute; reflexivity. Qed.

(** The whole exchange of C5 on a fresh page: the log holds the user's
    message, logged at submission, and the one assistant message. *)
Example hello_world_exchange :
  map (fun m => (role m, content m))
    (messages
       (run (B := sample_browser) (constructor [] [] [] [])
          ([TypeText (js "hi") []; Submit 1; FetchResolved 0 200 2]
           ++ body_inputs 0
                [delta_record "Hel" ++ nn; delta_record "lo, " ++ nn;
                 delta_record "world!" ++ nn; done_record ++ nn] 3)))
  = [(js "user", js "hi"); (js "assistant", js "Hello, world!")].
Proof. vm_compute. reflexivity. Qed.

(** C2, at the failing input. A record that arrives in a chunk after the one
    holding the end marker is still parsed, and its fragment is appended to
    the buffer and committed: [break] leaves the loop over the records of
    one chunk, not the loop that reads the chunks. *)
Theorem fragment_after_done_is_appended :
  messages (run (B := sample_browser) streaming_session
              (body_inputs 0 [done_record ++ nn; delta_record "late" ++ nn]
                 3))
  = messages streaming_session
    ++ [mkMessage (js "late") (js "assistant") 3%nat].
Proof. vm_compute; reflexivity. Qed.

(** Within one chunk the end marker does stop the loop. *)
Example fragment_after_done_same_chunk :
  messages (run (B := sample_browser) streaming_session
              (body_inputs 0 [done_record ++ nn ++ delta_record "late" ++ nn]
                 3))
  = messages streaming_session.
Proof. vm_compute; reflexivity. Qed.

(** C6, at the failing input. Once the response headers of the first
    exchange have arrived the busy flag is false and the send control
    enabled, although its body is still being read; a second submission is
    then accepted: its user message is logged, a second request is issued,
    and two bodies are being read at once. *)
Theorem second_submission_while_streaming :
  let a1 := run (B := sample_browser) streaming_session
              [ChunkRead 0 (delta_record "Hel" ++ nn)] in
  let a2 := run (B := sample_browser) a1
              [TypeText (js "second") []; Submit 4; FetchResolved 1 200 5] in
  streaming a1 = 1%nat
  /\ isTyping a1 = false
  /\ sendButton_disabled a1 = false
  /\ snapshot a2 = snapshot a1 ++ [(js "user", js "second")]
  /\ List.length (requests a2) = 2%nat
  /\ streaming a2 = 2%nat.
Proof. vm_compute. repeat split. Qed.

Lemma split_record_lost_witness :
  let j := jq "{'choices':[{'delta':{'content':'lost'}}]}" in
  let p1 := jq "data: {'choices':[{'del" in
  let p2 := jq "ta':{'content':'lost'}}]}" in
  let cA := delta_record "a" ++ nn ++ p1 in
  let cB := p2 ++ nn ++ delta_record "b" ++ nn in
  nth_error (tasks streaming_session) 0 = Some (AwaitRead 1 [])
  /\ JSON_parse j
     = Some (JObj [(js "choices",
                    JArr [JObj [(js "delta",
                                 JObj [(js "content", JStr (js "lost"))])]])])
  /\ ends_in_json_ws j = false
  /\ js "data: " ++ j = p1 ++ p2
  /\ p1 <> [] /\ p2 <> []
  /\ split_nn cA = [delta_record "a"] ++ [p1]
  /\ split_nn cB = p2 :: [delta_record "b"; []]
  /\ stream_carries [] []
  /\ lines_carry [delta_record "a"] [js "a"]
  /\ lines_carry [delta_record "b"; []] [js "b"]
  /\ stream_carries [done_record] []
  /\ (let a' := run (B := sample_browser) streaming_session
                  (body_inputs 0 ([] ++ cA :: cB :: [done_record]) 3) in
      line_skipped p1
      /\ line_skipped p2
      /\ messages a'
         = messages streaming_session
           ++ [mkMessage (js "ab") (js "assistant") 3%nat]
      /\ chatMessages a' = chatMessages streaming_session
      /\ isTyping a' = isTyping streaming_session
      /\ nth_error (tasks a') 0 = Some Settled).
Proof.
  intros j p1 p2 cA cB.
  assert (H1 : nth_error (tasks streaming_session) 0 = Some (AwaitRead 1 []))
    by (vm_compute; reflexivity).
  assert (H2 : JSON_parse j
               = Some (JObj [(js "choices",
                              JArr [JObj [(js "delta",
                                           JObj [(js "content",
                                                  JStr (js "lost"))])]])]))
    by (vm_compute; reflexivity).
  assert (H3 : ends_in_json_ws j = false) by (vm_compute; reflexivity).
  assert (H4 : js "data: " ++ j = p1 ++ p2) by (vm_compute; reflexivity).
  assert (H5 : p1 <> []) by (vm_compute; discriminate).
  assert (H6 : p2 <> []) by (vm_compute; discriminate).
  assert (H7 : split_nn cA = [delta_record "a"] ++ [p1])
    by (vm_compute; reflexivity).
  assert (H8 : split_nn cB = p2 :: [delta_record "b"; []])
    by (vm_compute; reflexivity).
  assert (K1 : stream_carries [] []) by exact stream_end.
  assert (K2 : lines_carry [delta_record "a"] [js "a"]).
  { refine (@carry_delta _ _ (delta_value (js "a")) _ _ _ _
              (delta_value_fragment _) carry_end);
      vm_compute; reflexivity. }
  assert (K3 : lines_carry [delta_record "b"; []] [js "b"]).
  { refine (@carry_delta _ _ (delta_value (js "b")) _ _ _ _
              (delta_value_fragment _) _);
      [vm_compute; reflexivity | vm_compute; reflexivity |].
    apply carry_unprefixed; [reflexivity | exact carry_end]. }
  assert (K4 : stream_carries [done_record] []).
  { refine (@stream_chunk done_record [] [] [] _ stream_end).
    change (split_nn done_record) with [done_record].
    apply carry_done; vm_compute; reflexivity. }
  pose proof (split_record_lost (B := sample_browser) [] [done_record]
                [delta_record "a"] [delta_record "b"; []] cA cB j p1 p2
                [(js "choices",
                  JArr [JObj [(js "delta",
                               JObj [(js "content", JStr (js "lost"))])]])]
                0 1 3 [] streaming_session H1 H2 H3 H4 H5 H6 H7 H8) as T.
  cbv zeta in T. destruct T as (T1 & T2 & _ & T4 & T5 & T6 & T7).
  refine (conj H1 (conj H2 (conj H3 (conj H4 (conj H5 (conj H6 (conj H7
            (conj H8 (conj K1 (conj K2 (conj K3 (conj K4 _)))))))))))).
  refine (conj T1 (conj T2 (conj _ (conj T5 (conj T6 T7))))).
  exact (T4 [] [js "a"] [js "b"] [] K1 K2 K3 K4).
Defined.

(** The committed text of the witness above is [ab]; delivered in one
    piece, the record would have added its fragment. *)
Example split_record_example :
  let p1 := jq "data: {'choices':[{'del" in
  let p2 := jq "ta':{'content':'lost'}}]}" in
  map content
    (messages (run (B := sample_browser) streaming_session
                 (body_inputs 0
                    [delta_record "a" ++ nn ++ p1;
                     p2 ++ nn ++ delta_record "b" ++ nn] 3)))
  = [js "hi"; js "ab"]
  /\ map content
       (messages (run (B := sample_browser) streaming_session
                    (body_inputs 0
                       [delta_record "a" ++ nn ++ p1 ++ p2 ++ nn
                        ++ delta_record "b" ++ nn] 3)))
     = [js "hi"; js "alostb"].
Proof. vm_compute. split; reflexivity. Qed.

(** C10, as stated, fails. A record whose JSON text ends in a blank, cut
    just before the blank: every condition of the claim holds (the record is
    the prefix followed by text that parses to an object, it is cut in two
    non-empty pieces, the first ends one chunk and the second starts the
    next), yet the first piece is a complete record: it is not passed over,
    its fragment [kept] is appended, and the committed text holds it. *)
Lemma split_before_trailing_blank_is_kept :
  let j := jq "{'choices':[{'delta':{'content':'kept'}}]} " in
  let p1 := jq "data: {'choices':[{'delta':{'content':'kept'}}]}" in
  let p2 := js " " in
  let cA := delta_record "a" ++ nn ++ p1 in
  let cB := p2 ++ nn ++ delta_record "b" ++ nn in
  JSON_parse j
  = Some (JObj [(js "choices",
                 JArr [JObj [(js "delta",
                              JObj [(js "content", JStr (js "kept"))])]])])
  /\ js "data: " ++ j = p1 ++ p2
  /\ p1 <> [] /\ p2 <> []
  /\ split_nn cA = [delta_record "a"] ++ [p1]
  /\ split_nn cB = p2 :: [delta_record "b"; []]
  /\ ~ line_skipped p1
  /\ record_fragment (B := sample_browser) (substring_from 6 p1) = js "kept"
  /\ messages (run (B := sample_browser) streaming_session
                 (body_inputs 0 [cA; cB; done_record] 3))
     = messages streaming_session
       ++ [mkMessage (js "akeptb") (js "assistant") 3%nat].
Proof.
  intros j p1 p2 cA cB.
  split; [vm_compute; reflexivity|]. split; [vm_compute; reflexivity|].
  split; [vm_compute; discriminate|]. split; [vm_compute; discriminate|].
  split; [vm_compute; reflexivity|]. split; [vm_compute; reflexivity|].
  split.
  - intros [K|(_ & _ & K)]; vm_compute in K; discriminate K.
  - split; vm_compute; reflexivity.
Qed.

(** The JSON text of the record must end at its closing brace: whitespace
    between the brace and the separator is not part of it, and a cut just
    before such whitespace leaves the record whole in the first chunk. *)
Example record_followed_by_space :
  let p1 := jq "data: {'choices':[{'delta':{'content':'kept'}}]}" in
  record_fragment (B := sample_browser) (substring_from 6 p1) = js "kept"
  /\ map content
       (messages (run (B := sample_browser) streaming_session
                    (body_inputs 0 [p1; js " " ++ nn] 3)))
     = [js "hi"; js "kept"].
Proof. vm_compute. split; reflexivity. Qed.

(** * Further properties *)

(** ** Splitting and trimming *)

Lemma split_nn_eq (c d : N) (r : jsstring) :
  split_nn (c :: d :: r)
  = if (c =? 10) && (d =? 10) then [] :: split_nn r
    else match split_nn (d :: r) with
         | cur :: more => (c :: cur) :: more
         | [] => [[c]]
         end.
Proof. reflexivity. Qed.

Lemma split_nn_cons (s : jsstring) : exists x rest, split_nn s = x :: rest.
Proof.
  induction s as [s IH] using (induction_ltof1 _ (@List.length N)).
  unfold ltof in IH.
  destruct s as [|c [|d r]]; [simpl; eauto | simpl; eauto |].
  rewrite split_nn_eq.
  destruct ((c =? 10) && (d =? 10)); eauto.
  destruct (IH (d :: r)) as (x & rest & E); [simpl; lia|].
  rewrite E. eauto.
Qed.

(** X1. Joining the pieces of a chunk with the separator gives the chunk
    back: the split drops the separators and nothing else. *)
Theorem join_split_nn (s : jsstring) : join_nn (split_nn s) = s.
Proof.
  induction s as [s IH] using (induction_ltof1 _ (@List.length N)).
  unfold ltof in IH.
  destruct s as [|c [|d r]]; try reflexivity.
  rewrite split_nn_eq.
  destruct (N.eqb_spec c 10) as [->|Hc]; cbn [andb].
  - destruct (N.eqb_spec d 10) as [->|Hd].
    + destruct (split_nn_cons r) as (x & rest & E).
      cbn [join_nn]. rewrite E, <- E, IH by (simpl; lia). reflexivity.
    + destruct (split_nn_cons (d :: r)) as (x & rest & E).
      pose proof (IH (d :: r) ltac:(simpl; lia)) as K. rewrite E in *.
      cbn [join_nn] in *. destruct rest; cbn [app]; now rewrite K.
  - destruct (split_nn_cons (d :: r)) as (x & rest & E).
    pose proof (IH (d :: r) ltac:(simpl; lia)) as K. rewrite E in *.
    cbn [join_nn] in *. destruct rest; cbn [app]; now rewrite K.
Qed.

Lemma split_nn_no_lf (x : jsstring) :
  Forall (fun c => c <> 10) x -> split_nn x = [x].
Proof.
  induction 1 as [|c x Hc Hx IH]; [reflexivity|].
  destruct x as [|d r]; [reflexivity|]. rewrite split_nn_eq.
  apply N.eqb_neq in Hc. rewrite Hc. cbn [andb]. now rewrite IH.
Qed.

Lemma split_nn_piece (x rest : jsstring) :
  Forall (fun c => c <> 10) x ->
  split_nn (x ++ nn ++ rest) = x :: split_nn rest.
Proof.
  induction 1 as [|c x Hc Hx IH]; [reflexivity|].
  cbn [app].
  destruct (x ++ nn ++ rest) as [|d r] eqn:E.
  { destruct x; discriminate E. }
  rewrite split_nn_eq.
  apply N.eqb_neq in Hc. rewrite Hc. cbn [andb]. now rewrite IH.
Qed.

(** X2. Pieces that hold no line feed, joined by the separator, are the
    pieces the split gives back, in order. *)
Theorem split_join_nn (lines : list jsstring) :
  lines <> [] ->
  Forall (Forall (fun c => c <> 10)) lines ->
  split_nn (join_nn lines) = lines.
Proof.
  intros Hne H. induction H as [|x rest Hx Hr IH]; [contradiction|].
  cbn [join_nn]. destruct rest as [|y rest'].
  - now apply split_nn_no_lf.
  - rewrite split_nn_piece by exact Hx. f_equal. apply IH. discriminate.
Qed.

Lemma trimStart_head (s : jsstring) (c : N) (r : jsstring) :
  trimStart s = c :: r -> is_js_whitespace c = false.
Proof.
  induction s as [|d s IH]; simpl; [discriminate|].
  destruct (is_js_whitespace d) eqn:E; [exact IH|].
  intros H. injection H as <- _. exact E.
Qed.

Lemma trimStart_fixed (s : jsstring) :
  match s with
  | [] => True
  | c :: _ => is_js_whitespace c = false
  end ->
  trimStart s = s.
Proof. destruct s as [|c r]; simpl; [reflexivity|]. now intros ->. Qed.

Lemma trimStart_last (s : jsstring) (c : N) (u : jsstring) :
  trimStart s = u ++ [c] -> exists v, s = v ++ [c].
Proof.
  destruct (trimStart_split s) as (w & E & _). intros H.
  exists (w ++ u). rewrite E at 1. rewrite H. now rewrite app_assoc.
Qed.

(** The trimmed text neither starts nor ends with whitespace. *)
Lemma trim_ends (s : jsstring) :
  (forall c r, trim s = c :: r -> is_js_whitespace c = false)
  /\ (forall u c, trim s = u ++ [c] -> is_js_whitespace c = false).
Proof.
  unfold trim. split.
  - intros c r H.
    assert (K : trimStart (rev (trimStart s)) = rev r ++ [c]).
    { rewrite <- (rev_involutive (trimStart (rev (trimStart s)))), H.
      reflexivity. }
    apply trimStart_last in K as [v K].
    assert (K' : trimStart s = c :: rev v).
    { rewrite <- (rev_involutive (trimStart s)), K, rev_app_distr.
      reflexivity. }
    now apply trimStart_head in K'.
  - intros u c H.
    assert (K : trimStart (rev (trimStart s)) = c :: rev u).
    { rewrite <- (rev_involutive (trimStart (rev (trimStart s)))), H,
        rev_app_distr. reflexivity. }
    now apply trimStart_head in K.
Qed.

Lemma trim_trim (s : jsstring) : trim (trim s) = trim s.
Proof.
  destruct (trim_ends s) as [Hh Hl].
  unfold trim at 1.
  rewrite (trimStart_fixed (trim s)).
  - rewrite trimStart_fixed; [apply rev_involutive|].
    destruct (rev (trim s)) as [|c r] eqn:E; [exact I|].
    apply (Hl (rev r) c).
    rewrite <- (rev_involutive (trim s)), E. reflexivity.
  - destruct (trim s) as [|c r] eqn:E; [exact I|]. now apply (Hh c r).
Qed.

(** ** The event loop *)

Section Loop.
Context {B : Browser}.

Lemma finish_frame (target : nat) (fr : jsstring) (now : nat) (a : ChatApp) :
  messages (streamAIResponse_finish target fr now a)
  = messages a ++ committed fr now
  /\ isTyping (streamAIResponse_finish target fr now a) = isTyping a
  /\ chatMessages (streamAIResponse_finish target fr now a) = chatMessages a
  /\ sendButton_disabled (streamAIResponse_finish target fr now a)
     = sendButton_disabled a
  /\ tasks (streamAIResponse_finish target fr now a) = tasks a.
Proof.
  unfold streamAIResponse_finish.
  match goal with
  | |- context [highlightCodeBlocks ?c ?x] =>
      destruct (highlightCodeBlocks_frame c x)
        as (E1 & E2 & E3 & E4 & E5 & _)
  end.
  rewrite E1, E2, E3, E4, E5.
  destruct fr; simpl; rewrite ?app_nil_r; repeat split.
Qed.

Lemma sendMessage_rejected (now : nat) (a : ChatApp) :
  can_send a = false -> sendMessage now a = a.
Proof.
  unfold can_send, sendMessage. intros H. apply negb_false_iff in H.
  now rewrite H.
Qed.

Lemma can_send_true (a : ChatApp) :
  can_send a = true ->
  isTyping a = false /\ trim (messageInput_value a) <> [].
Proof.
  unfold can_send. intros H. apply negb_true_iff, orb_false_iff in H.
  destruct H as [H1 H2]. split; [exact H2 | now apply jsstring_eqb_neq].
Qed.

(** What one input does to the log, the flag, the send control and the
    calls. *)
Lemma step_frame (a : ChatApp) (i : Input) :
  (exists l, messages (step a i) = messages a ++ l
             /\ (List.length l <= 1)%nat)
  \/ i = ClearShortcut.
Proof.
  destruct i as [text h|now|t status now|t now|t chunk|t now|t now|];
    [left; exists []; simpl; split; [now rewrite app_nil_r | lia]
    | | | | | | | now right]; left; cbn [step].
  - destruct (can_send a) eqn:G.
    + destruct (can_send_true a G) as [G1 G2].
      destruct (sendMessage_accepted now a G1 G2) as (E & _).
      rewrite E. eexists. split; [reflexivity | simpl; lia].
    + rewrite (sendMessage_rejected now a G). exists [].
      split; [now rewrite app_nil_r | simpl; lia].
  - destruct (nth_error (tasks a) t) as [[|target fr|]|];
      try (exists []; split; [now rewrite app_nil_r | simpl; lia]).
    destruct (response_ok status).
    + pose proof (messages_addMessage [] (js "assistant") false now a) as M.
      destruct (addMessage [] (js "assistant") false now a) as [target a1].
      cbn [snd] in M. cbn. rewrite M. exists [].
      split; [now rewrite app_nil_r | simpl; lia].
    + destruct (sendMessage_catch_spec now
                  (set_tasks (list_set t Settled (tasks a)) a)) as (E & _).
      rewrite E. eexists. split; [reflexivity | simpl; lia].
  - destruct (nth_error (tasks a) t) as [[|target fr|]|];
      try (exists []; split; [now rewrite app_nil_r | simpl; lia]).
    destruct (sendMessage_catch_spec now
                (set_tasks (list_set t Settled (tasks a)) a)) as (E & _).
    rewrite E. eexists. split; [reflexivity | simpl; lia].
  - destruct (nth_error (tasks a) t) as [[|target fr|]|];
      try (exists []; split; [now rewrite app_nil_r | simpl; lia]).
    unfold read_chunk.
    destruct (for_lines_spec target (split_nn chunk) fr a) as [_ F].
    destruct (for_lines target (split_nn chunk) fr a) as [fr' a1].
    cbn [snd] in F. destruct F as (F1 & _). cbn. rewrite F1.
    exists []. split; [now rewrite app_nil_r | simpl; lia].
  - destruct (nth_error (tasks a) t) as [[|target fr|]|];
      try (exists []; split; [now rewrite app_nil_r | simpl; lia]).
    destruct (finish_frame target fr now
                (set_tasks (list_set t Settled (tasks a)) a)) as (E & _).
    rewrite E. eexists. split; [reflexivity|].
    destruct fr; simpl; lia.
  - destruct (nth_error (tasks a) t) as [[|target fr|]|];
      try (exists []; split; [now rewrite app_nil_r | simpl; lia]).
    destruct (sendMessage_catch_spec now
                (set_tasks (list_set t Settled (tasks a)) a)) as (E & _).
    rewrite E. eexists. split; [reflexivity | simpl; lia].
Qed.

(** X3. Except for the clear shortcut, no input removes or changes an
    entry of the log: the log after the input is the log before it, followed
    by at most one new entry. *)
Theorem log_append_only (a : ChatApp) (i : Input) :
  i <> ClearShortcut ->
  exists l, messages (step a i) = messages a ++ l
            /\ (List.length l <= 1)%nat.
Proof.
  intros H. destruct (step_frame a i) as [K|K]; [exact K | contradiction].
Qed.

(** The send control follows the busy flag through every input. *)
Lemma step_flag (a : ChatApp) (i : Input) :
  sendButton_disabled a = isTyping a ->
  sendButton_disabled (step a i) = isTyping (step a i).
Proof.
  intros H.
  destruct i as [text h|now|t status now|t now|t chunk|t now|t now|];
    cbn [step]; try exact H.
  - destruct (can_send a) eqn:G.
    + destruct (can_send_true a G) as [G1 G2].
      destruct (sendMessage_accepted now a G1 G2) as (_ & E1 & E2 & _).
      congruence.
    + now rewrite (sendMessage_rejected now a G).
  - destruct (nth_error (tasks a) t) as [[|target fr|]|] eqn:Et;
      try exact H.
    destruct (response_ok status) eqn:Es.
    + destruct (fetch_ok_releases_flag t status now a Et Es) as (E1 & E2 & _).
      cbn [step] in E1, E2. rewrite Et, Es in E1, E2. congruence.
    + destruct (sendMessage_catch_spec now
                  (set_tasks (list_set t Settled (tasks a)) a))
        as (_ & E1 & E2 & _). congruence.
  - destruct (nth_error (tasks a) t) as [[|target fr|]|]; try exact H.
    destruct (sendMessage_catch_spec now
                (set_tasks (list_set t Settled (tasks a)) a))
      as (_ & E1 & E2 & _). congruence.
  - destruct (nth_error (tasks a) t) as [[|target fr|]|]; try exact H.
    unfold read_chunk.
    destruct (for_lines_spec target (split_nn chunk) fr a) as [_ F].
    destruct (for_lines target (split_nn chunk) fr a) as [fr' a1].
    cbn [snd] in F. destruct F as (_ & F2 & _ & F4 & _). cbn. congruence.
  - destruct (nth_error (tasks a) t) as [[|target fr|]|]; try exact H.
    destruct (finish_frame target fr now
                (set_tasks (list_set t Settled (tasks a)) a))
      as (_ & E1 & _ & E2 & _).
    rewrite E1, E2. exact H.
  - destruct (nth_error (tasks a) t) as [[|target fr|]|]; try exact H.
    destruct (sendMessage_catch_spec now
                (set_tasks (list_set t Settled (tasks a)) a))
      as (_ & E1 & E2 & _). congruence.
Qed.

(** X4. The send control follows the busy flag: when it is disabled
    exactly if the flag is set, as on a fresh page, it still is after any
    inputs. *)
Theorem send_control_follows_flag (a : ChatApp) (inputs : list Input) :
  sendButton_disabled a = isTyping a ->
  sendButton_disabled (run a inputs) = isTyping (run a inputs).
Proof.
  unfold run. revert a. induction inputs as [|i inputs IH]; intros a H;
    [exact H|].
  cbn [fold_left]. apply IH. now apply step_flag.
Qed.

End Loop.

(** ** Requests *)

Section Requests.
Context {B : Browser}.

Lemma quiet_refl (a : ChatApp) : quiet a a.
Proof. exists []. now rewrite app_nil_r. Qed.

Lemma quiet_trans (a b c : ChatApp) : quiet a b -> quiet b c -> quiet a c.
Proof.
  intros (l & E & F) (l' & E' & F'). exists (l ++ l').
  rewrite E', E, <- app_assoc, filter_app, F, F'. now split.
Qed.

Lemma quiet_requests (a a' : ChatApp) : quiet a a' -> requests a' = requests a.
Proof.
  intros (l & E & F). unfold requests. rewrite E, filter_app.
  change (fun e : Effect => match e with Fetch _ _ => true | _ => false end)
    with is_request.
  now rewrite F, app_nil_r.
Qed.

Lemma quiet_emit (e : Effect) (a : ChatApp) :
  is_request e = false -> quiet a (emit e a).
Proof. intros H. exists [e]. simpl. now rewrite H. Qed.

Lemma highlight_calls_quiet (bs : list Block) :
  filter is_request (highlight_calls bs) = [].
Proof. induction bs as [|[p|h] bs IH]; simpl; auto. Qed.

Lemma quiet_highlightCodeBlocks (c : nat) (a : ChatApp) :
  quiet a (highlightCodeBlocks c a)
  /\ lmStudioUrl_value (highlightCodeBlocks c a) = lmStudioUrl_value a
  /\ modelName_value (highlightCodeBlocks c a) = modelName_value a.
Proof.
  unfold highlightCodeBlocks.
  destruct (nth_error (contents a) c) as [bs|];
    [|repeat split; apply quiet_refl].
  repeat split. exists (highlight_calls bs).
  split; [reflexivity | apply highlight_calls_quiet].
Qed.

Lemma quiet_addMessage (c r : jsstring) (h : bool) (now : nat)
  (a : ChatApp) :
  quiet a (snd (addMessage c r h now a))
  /\ lmStudioUrl_value (snd (addMessage c r h now a)) = lmStudioUrl_value a
  /\ modelName_value (snd (addMessage c r h now a)) = modelName_value a.
Proof.
  unfold addMessage. cbn [snd].
  assert (Q : forall x : ChatApp,
             effects x = effects a ++ [ScrollToBottom] ->
             lmStudioUrl_value x = lmStudioUrl_value a ->
             modelName_value x = modelName_value a ->
             quiet a (if jsstring_eqb r (js "assistant")
                      then highlightCodeBlocks
                             (List.length
                                (contents
                                   (if h
                                    then set_messages
                                           (messages a ++ [mkMessage c r now])
                                           a
                                    else a))) x
                      else x)
             /\ lmStudioUrl_value
                  (if jsstring_eqb r (js "assistant")
                   then highlightCodeBlocks
                          (List.length
                             (contents
                                (if h
                                 then set_messages
                                        (messages a ++ [mkMessage c r now]) a
                                 else a))) x
                   else x) = lmStudioUrl_value a
             /\ modelName_value
                  (if jsstring_eqb r (js "assistant")
                   then highlightCodeBlocks
                          (List.length
                             (contents
                                (if h
                                 then set_messages
                                        (messages a ++ [mkMessage c r now]) a
                                 else a))) x
                   else x) = modelName_value a).
  { intros x Ex Eu Em.
    assert (Qx : quiet a x) by (exists [ScrollToBottom]; now split).
    destruct (jsstring_eqb r (js "assistant")).
    - match goal with
      | |- context [highlightCodeBlocks ?k x] =>
          destruct (quiet_highlightCodeBlocks k x) as (Q1 & Q2 & Q3)
      end.
      rewrite Q2, Q3. repeat split; try assumption.
      eapply quiet_trans; eassumption.
    - repeat split; assumption. }
  apply Q; destruct h; reflexivity.
Qed.

Lemma quiet_catch (now : nat) (a : ChatApp) :
  quiet a (sendMessage_catch now a).
Proof.
  unfold sendMessage_catch.
  eapply quiet_trans; [|apply quiet_emit; reflexivity].
  apply (quiet_trans a (hideTypingIndicator a));
    [exists []; split; [now rewrite app_nil_r | reflexivity]|].
  apply (quiet_addMessage errorText (js "assistant") true now).
Qed.

Lemma quiet_try_record (target : nat) (d fr : jsstring) (a : ChatApp) :
  quiet a (snd (try_record target d fr a)).
Proof.
  unfold try_record.
  destruct (JSON_parse d) as [data|];
    [|apply quiet_emit; reflexivity].
  destruct (delta_content data) as [token|];
    [|apply quiet_emit; reflexivity].
  destruct (truthy token); [|apply quiet_refl].
  destruct (ToString token) as [t|]; [|apply quiet_emit; reflexivity].
  exists [ScrollToBottom]. now split.
Qed.

Lemma quiet_for_lines (target : nat) (lines : list jsstring) (fr : jsstring)
  (a : ChatApp) :
  quiet a (snd (for_lines target lines fr a)).
Proof.
  revert fr a. induction lines as [|line rest IH]; intros fr a;
    cbn [for_lines]; [apply quiet_refl|].
  destruct (startsWith line (js "data: ")); [|apply IH].
  destruct (jsstring_eqb (trim (substring_from 6 line)) (js "[DONE]"));
    [apply quiet_refl|].
  pose proof (quiet_try_record target (substring_from 6 line) fr a) as Q.
  destruct (try_record target (substring_from 6 line) fr a) as [fr' a'].
  cbv beta iota. cbn [snd] in Q.
  eapply quiet_trans; [exact Q | apply IH].
Qed.

Lemma quiet_finish (target : nat) (fr : jsstring) (now : nat) (a : ChatApp) :
  quiet a (streamAIResponse_finish target fr now a).
Proof.
  unfold streamAIResponse_finish.
  eapply quiet_trans; [|apply quiet_highlightCodeBlocks].
  destruct fr; exists []; split; try reflexivity; cbn [effects set_messages];
    now rewrite app_nil_r.
Qed.

(** An accepted submission issues the request for the trimmed input on top
    of the log. *)
Lemma sendMessage_request (now : nat) (a : ChatApp) :
  can_send a = true ->
  requests (sendMessage now a)
  = requests a ++ [streaming_request (trim (messageInput_value a)) a].
Proof.
  intros G. destruct (can_send_true a G) as [G1 G2].
  unfold sendMessage. apply jsstring_eqb_neq in G2. rewrite G2, G1.
  cbn [orb].
  destruct (quiet_addMessage (trim (messageInput_value a)) (js "user") true
              now a) as (Q & Eu & Em).
  pose proof (snapshot_addMessage (trim (messageInput_value a)) (js "user")
                now a) as Es.
  set (a1 := snd (addMessage (trim (messageInput_value a)) (js "user") true
                    now a)) in *.
  apply quiet_requests in Q.
  unfold streamAIResponse_request, streaming_request, requests in *.
  cbn [effects set_tasks emit showTypingIndicator scrollToBottom set_typing
         set_messageInput lmStudioUrl_value modelName_value].
  rewrite !filter_app. cbn [filter]. rewrite app_nil_r, Q.
  change (snapshot (showTypingIndicator
                      (set_messageInput [] (js "auto") a1)))
    with (snapshot a1).
  rewrite Es, Eu, Em. reflexivity.
Qed.

(** X7. Requests are issued by accepted submissions only, one each: after
    any input the requests are those issued before, followed, when the input
    is a submission that passes the guard, by one streaming request that
    carries the system instruction, the log in order, and last the trimmed
    input as the user's message. *)
Theorem one_request_per_submission (a : ChatApp) (i : Input) :
  requests (step a i)
  = requests a
    ++ match i with
       | Submit _ =>
           if can_send a
           then [streaming_request (trim (messageInput_value a)) a]
           else []
       | _ => []
       end.
Proof.
  destruct i as [text h|now|t status now|t now|t chunk|t now|t now|];
    cbn [step]; rewrite ?app_nil_r; try reflexivity.
  - destruct (can_send a) eqn:G.
    + now apply sendMessage_request.
    + rewrite (sendMessage_rejected now a G). now rewrite app_nil_r.
  - destruct (nth_error (tasks a) t) as [[|target fr|]|]; try reflexivity.
    destruct (response_ok status).
    + destruct (quiet_addMessage [] (js "assistant") false now a)
        as (Q & _).
      destruct (addMessage [] (js "assistant") false now a) as [target a1].
      cbn [snd] in Q. apply quiet_requests in Q. exact Q.
    + apply quiet_requests.
      apply (quiet_catch now (set_tasks (list_set t Settled (tasks a)) a)).
  - destruct (nth_error (tasks a) t) as [[|target fr|]|]; try reflexivity.
    apply quiet_requests.
    apply (quiet_catch now (set_tasks (list_set t Settled (tasks a)) a)).
  - destruct (nth_error (tasks a) t) as [[|target fr|]|]; try reflexivity.
    unfold read_chunk.
    pose proof (quiet_for_lines target (split_nn chunk) fr a) as Q.
    destruct (for_lines target (split_nn chunk) fr a) as [fr' a1].
    cbn [snd] in Q. apply quiet_requests in Q. exact Q.
  - destruct (nth_error (tasks a) t) as [[|target fr|]|]; try reflexivity.
    apply quiet_requests.
    apply (quiet_finish target fr now
             (set_tasks (list_set t Settled (tasks a)) a)).
  - destruct (nth_error (tasks a) t) as [[|target fr|]|]; try reflexivity.
    apply quiet_requests.
    apply (quiet_catch now (set_tasks (list_set t Settled (tasks a)) a)).
Qed.

(** X8. The apology logged by the [catch] block becomes part of the
    conversation: the request of the next accepted submission carries it, as
    an assistant message, between the earlier log and the new user
    message. *)
Theorem apology_is_sent_next (now now' : nat) (text height : jsstring)
  (a : ChatApp) :
  trim text <> [] ->
  let a1 := sendMessage_catch now a in
  requests (run a1 [TypeText text height; Submit now'])
  = requests a
    ++ [Fetch
          (or_default (lmStudioUrl_value a) (js "http://localhost:1234")
           ++ js "/v1/chat/completions")
          (mkRequestBody (or_default (modelName_value a) (js "default"))
             ((js "system", systemPrompt)
              :: snapshot a
                 ++ [(js "assistant", errorText); (js "user", trim text)])
             (js "0.7") 1000 true)].
Proof.
  intros Ht a1. unfold run. cbn [fold_left step].
  destruct (sendMessage_catch_spec now a) as (C1 & C2 & _).
  fold a1 in C1, C2.
  assert (G : can_send (set_messageInput text height a1) = true).
  { unfold can_send. cbn [messageInput_value set_messageInput isTyping].
    rewrite C2. apply jsstring_eqb_neq in Ht. now rewrite Ht. }
  rewrite (sendMessage_request now' _ G).
  change (requests (set_messageInput text height a1)) with (requests a1).
  rewrite (quiet_requests a a1 (quiet_catch now a)).
  f_equal. unfold streaming_request.
  cbn [messageInput_value set_messageInput lmStudioUrl_value
         modelName_value].
  change (snapshot (set_messageInput text height a1)) with (snapshot a1).
  assert (Es : snapshot a1 = snapshot a ++ [(js "assistant", errorText)]).
  { unfold snapshot. rewrite C1, map_app. reflexivity. }
  rewrite Es, <- app_assoc.
  assert (Eu : lmStudioUrl_value a1 = lmStudioUrl_value a
               /\ modelName_value a1 = modelName_value a).
  { unfold a1, sendMessage_catch.
    destruct (quiet_addMessage errorText (js "assistant") true now
                (hideTypingIndicator a)) as (_ & U & M).
    cbn [lmStudioUrl_value modelName_value emit]. now rewrite U, M. }
  destruct Eu as [-> ->]. reflexivity.
Qed.

End Requests.

(** ** Rendering a stream *)

Section RenderStream.
Context {B : Browser}.

Lemma rendering_refl (target : nat) (fr : jsstring) (a : ChatApp) :
  rendering target fr a fr a.
Proof. split; [reflexivity | left; now split]. Qed.

Lemma rendering_trans (target : nat) (fr0 fr1 fr2 : jsstring)
  (a0 a1 a2 : ChatApp) :
  rendering target fr0 a0 fr1 a1 -> rendering target fr1 a1 fr2 a2 ->
  rendering target fr0 a0 fr2 a2.
Proof.
  intros [L1 R1] [L2 R2]. split; [congruence|].
  destruct R2 as [[E2 F2]|R2]; [|now right]. subst fr2. rewrite E2.
  destruct R1 as [[E1 F1]|R1]; [left; now split | now right].
Qed.

Lemma try_record_rendering (target : nat) (d fr : jsstring) (a : ChatApp) :
  (target < List.length (contents a))%nat ->
  rendering target fr a (fst (try_record target d fr a))
    (snd (try_record target d fr a)).
Proof.
  intros Ht. unfold try_record.
  destruct (JSON_parse d) as [data|];
    [|split; [reflexivity | left; split; reflexivity]].
  destruct (delta_content data) as [token|];
    [|split; [reflexivity | left; split; reflexivity]].
  destruct (truthy token); [|apply rendering_refl].
  destruct (ToString token) as [t|];
    [|split; [reflexivity | left; split; reflexivity]].
  cbn [fst snd]. split; cbn [contents scrollToBottom emit set_contents].
  - apply length_list_set.
  - right. apply nth_error_Some in Ht.
    destruct (nth_error (contents a) target) as [old|] eqn:E;
      [|contradiction].
    eapply nth_error_list_set_eq. exact E.
Qed.

Lemma for_lines_rendering (target : nat) (lines : list jsstring)
  (fr : jsstring) (a : ChatApp) :
  (target < List.length (contents a))%nat ->
  rendering target fr a (fst (for_lines target lines fr a))
    (snd (for_lines target lines fr a)).
Proof.
  revert fr a. induction lines as [|line rest IH]; intros fr a Ht;
    cbn [for_lines]; [apply rendering_refl|].
  destruct (startsWith line (js "data: ")); [|now apply IH].
  destruct (jsstring_eqb (trim (substring_from 6 line)) (js "[DONE]"));
    [apply rendering_refl|].
  pose proof (try_record_rendering target (substring_from 6 line) fr a Ht)
    as R.
  destruct (try_record target (substring_from 6 line) fr a) as [fr' a'].
  cbv beta iota. cbn [fst snd] in R.
  eapply rendering_trans; [exact R|]. apply IH.
  destruct R as [L _]. now rewrite L.
Qed.

(** Reading chunks: the buffer of the call grows by their fragments, the
    bubble follows, and nothing else of the session moves. *)
Lemma run_chunks (chunks : list jsstring) (t target : nat) (fr : jsstring)
  (a : ChatApp) :
  nth_error (tasks a) t = Some (AwaitRead target fr) ->
  (target < List.length (contents a))%nat ->
  let text := fr ++ concat (stream_fragments chunks) in
  let a' := run a (map (ChunkRead t) chunks) in
  nth_error (tasks a') t = Some (AwaitRead target text)
  /\ messages a' = messages a
  /\ chatMessages a' = chatMessages a
  /\ isTyping a' = isTyping a
  /\ rendering target fr a text a'.
Proof.
  revert fr a. induction chunks as [|c rest IH]; intros fr a H Ht text a'.
  - unfold text, a'. simpl. rewrite app_nil_r.
    refine (conj H (conj eq_refl (conj eq_refl (conj eq_refl _)))).
    apply rendering_refl.
  - unfold a', run. cbn [map fold_left step]. rewrite H. unfold read_chunk.
    destruct (for_lines_spec target (split_nn c) fr a) as [E F].
    pose proof (for_lines_rendering target (split_nn c) fr a Ht) as R.
    destruct (for_lines target (split_nn c) fr a) as [fr' a1].
    cbv beta iota. cbn [fst snd] in E, F, R.
    destruct F as (F1 & F2 & F3 & _ & F5 & _).
    set (a2 := set_tasks (list_set t (AwaitRead target fr') (tasks a1)) a1).
    assert (R2 : rendering target fr a fr' a2) by exact R.
    destruct (IH fr' a2) as (I1 & I2 & I3 & I4 & I5).
    { unfold a2. cbn [tasks set_tasks]. rewrite F5.
      eapply nth_error_list_set_eq. exact H. }
    { destruct R as [L _]. unfold a2. cbn [contents set_tasks].
      now rewrite L. }
    unfold run in I1, I2, I3, I4, I5.
    assert (Et : text = fr' ++ concat (stream_fragments rest)).
    { unfold text, stream_fragments. cbn [flat_map].
      rewrite concat_app, app_assoc, <- E. reflexivity. }
    rewrite Et. refine (conj I1 (conj _ (conj _ (conj _ _)))).
    + rewrite I2. exact F1.
    + rewrite I3. exact F3.
    + rewrite I4. exact F2.
    + eapply rendering_trans; [exact R2 | exact I5].
Qed.

Lemma highlightCodeBlocks_at (c : nat) (bs : list Block) (a : ChatApp) :
  nth_error (contents a) c = Some bs ->
  nth_error (contents (highlightCodeBlocks c a)) c
  = Some (highlight_blocks bs).
Proof.
  intros H. unfold highlightCodeBlocks. rewrite H. cbn [contents set_contents].
  eapply nth_error_list_set_eq. exact H.
Qed.

Lemma highlightCodeBlocks_elsewhere (c k : nat) (a : ChatApp) :
  c <> k ->
  nth_error (contents (highlightCodeBlocks c a)) k
  = nth_error (contents a) k.
Proof.
  intros H. unfold highlightCodeBlocks.
  destruct (nth_error (contents a) c); [|reflexivity].
  cbn [contents set_contents]. now apply nth_error_list_set_neq.
Qed.

(** A new bubble leaves the bubbles that exist as they are. *)
Lemma addMessage_keeps_contents (c r : jsstring) (h : bool) (now : nat)
  (a : ChatApp) (k : nat) :
  (k < List.length (contents a))%nat ->
  nth_error (contents (snd (addMessage c r h now a))) k
  = nth_error (contents a) k.
Proof.
  intros Hk. unfold addMessage. cbv zeta. cbn [snd].
  destruct h, (jsstring_eqb r (js "assistant"));
    rewrite ?highlightCodeBlocks_elsewhere
      by (cbn [contents set_messages]; lia);
    cbn [contents scrollToBottom emit set_chatMessages set_contents
           set_messages];
    now apply nth_error_app1.
Qed.

(** X9. When reading a body has added text to the buffer, the bubble
    holds, at the end, what [marked] makes of the final buffer in one go,
    with the code-block pass applied once: the renderings after each
    fragment leave no trace. *)
Theorem bubble_shows_final_buffer (chunks : list jsstring)
  (t target : nat) (fr : jsstring) (now : nat) (a : ChatApp) :
  nth_error (tasks a) t = Some (AwaitRead target fr) ->
  (target < List.length (contents a))%nat ->
  concat (stream_fragments chunks) <> [] ->
  nth_error (contents (run a (body_inputs t chunks now))) target
  = Some (highlight_blocks
            (marked_parse (fr ++ concat (stream_fragments chunks)))).
Proof.
  intros H Ht Hne.
  destruct (run_chunks chunks t target fr a H Ht) as (T & _ & _ & _ & _ & R).
  unfold body_inputs, run in *. rewrite fold_left_app.
  set (a1 := fold_left step (map (ChunkRead t) chunks) a) in *.
  cbn [fold_left step]. rewrite T. unfold streamAIResponse_finish.
  apply highlightCodeBlocks_at.
  destruct R as [[_ E]|R].
  - exfalso. apply Hne. apply (app_inv_head fr). now rewrite app_nil_r.
  - destruct (fr ++ concat (stream_fragments chunks)); exact R.
Qed.

(** X10. When reading the body fails after some chunks, the text
    received so far is not logged: the log gains the apology only, the busy
    flag is cleared and the call has returned.  The bubble keeps the last
    rendering of the partial text, without the code-block pass. *)
Theorem read_failure_drops_partial_text (chunks : list jsstring)
  (t target : nat) (fr : jsstring) (now : nat) (a : ChatApp) :
  nth_error (tasks a) t = Some (AwaitRead target fr) ->
  (target < List.length (contents a))%nat ->
  let a' := run a (map (ChunkRead t) chunks ++ [ReadRejected t now]) in
  messages a' = messages a ++ [mkMessage errorText (js "assistant") now]
  /\ isTyping a' = false
  /\ nth_error (tasks a') t = Some Settled
  /\ (concat (stream_fragments chunks) <> [] ->
      nth_error (contents a') target
      = Some (marked_parse (fr ++ concat (stream_fragments chunks)))).
Proof.
  intros H Ht a'.
  destruct (run_chunks chunks t target fr a H Ht) as (T & M & _ & _ & L & R).
  unfold a', run in *. rewrite fold_left_app.
  set (a1 := fold_left step (map (ChunkRead t) chunks) a) in *.
  cbn [fold_left step]. rewrite T.
  set (a2 := set_tasks (list_set t Settled (tasks a1)) a1).
  destruct (sendMessage_catch_spec now a2) as (C1 & C2 & _ & C4 & _).
  repeat split.
  - rewrite C1. unfold a2. cbn [messages set_tasks]. now rewrite M.
  - exact C2.
  - rewrite C4. unfold a2. cbn [tasks set_tasks].
    eapply nth_error_list_set_eq. exact T.
  - intros Hne. unfold sendMessage_catch.
    cbn [contents emit].
    rewrite addMessage_keeps_contents
      by (cbn [contents hideTypingIndicator set_typing]; unfold a2;
          cbn [contents set_tasks]; now rewrite L).
    cbn [contents hideTypingIndicator set_typing]. unfold a2.
    cbn [contents set_tasks].
    destruct R as [[_ E]|R]; [|exact R].
    exfalso. apply Hne. apply (app_inv_head fr). now rewrite app_nil_r.
Qed.

(** X11. The clear shortcut does not stop a body that is being read:
    the reading goes on, and its text is committed to the emptied log, which
    then holds the answer without the question; the conversation shown is
    the greeting alone, and the bubble of the answer is not part of it. *)
Theorem clear_does_not_cancel_stream (chunks : list jsstring)
  (t target : nat) (fr : jsstring) (now : nat) (a : ChatApp) :
  nth_error (tasks a) t = Some (AwaitRead target fr) ->
  (target < List.length (contents a))%nat ->
  let a' := run a (ClearShortcut :: body_inputs t chunks now) in
  messages a' = committed (fr ++ concat (stream_fragments chunks)) now
  /\ nth_error (tasks a') t = Some Settled
  /\ chatMessages a'
     = [mkMessageElement (js "message assistant") (js "AI")
          (List.length (contents a))]
  /\ Forall (fun m => m_content m <> target) (chatMessages a').
Proof.
  intros H Ht a'. unfold a', run. cbn [fold_left step].
  destruct (run_body chunks t target fr now (clearChat a) H)
    as (E1 & E2 & _ & _ & E5).
  unfold run in E1, E2, E5. rewrite E1, E2, E5.
  repeat split. constructor; [|constructor]. simpl. lia.
Qed.

(** X12. A body none of whose records carries text commits nothing: the
    log is as it was before the body was read, and no apology appears. *)
Theorem empty_completion_logs_nothing (chunks : list jsstring)
  (t target : nat) (now : nat) (a : ChatApp) :
  nth_error (tasks a) t = Some (AwaitRead target []) ->
  concat (stream_fragments chunks) = [] ->
  messages (run a (body_inputs t chunks now)) = messages a
  /\ chatMessages (run a (body_inputs t chunks now)) = chatMessages a
  /\ nth_error (tasks (run a (body_inputs t chunks now))) t = Some Settled.
Proof.
  intros H He.
  destruct (run_body chunks t target [] now a H) as (E1 & E2 & _ & _ & E5).
  rewrite E1, E2, E5, He. simpl. rewrite app_nil_r. repeat split.
Qed.

(** X13. A line that does not start with the prefix, the space
    after the colon included, is passed over without a trace, wherever it
    stands among the lines of its chunk. *)
Theorem unprefixed_line_ignored (target : nat) (l1 l2 : list jsstring)
  (x fr : jsstring) (a : ChatApp) :
  startsWith x (js "data: ") = false ->
  for_lines target (l1 ++ x :: l2) fr a = for_lines target (l1 ++ l2) fr a.
Proof.
  intros Hx. revert fr a.
  induction l1 as [|y l1 IH]; intros fr a; cbn [for_lines app].
  - now rewrite Hx.
  - destruct (startsWith y (js "data: ")); [|apply IH].
    destruct (jsstring_eqb (trim (substring_from 6 y)) (js "[DONE]"));
      [reflexivity|].
    destruct (try_record target (substring_from 6 y) fr a).
    cbv beta iota. apply IH.
Qed.

End RenderStream.

(** ** Records and tokens *)

Section Tokens.
Context {B : Browser}.

Lemma opt_member_normal (v : JsVal) (k : jsstring) :
  exists w, opt_member v k = Normal w.
Proof. destruct v; simpl; eauto. Qed.

Lemma get_index0_throw (v : JsVal) :
  get_index0 v = Throw <-> v = JUndefined \/ v = JNull.
Proof.
  destruct v as [| | | | s | elems | props]; simpl;
    try (split; [discriminate | intros [K|K]; discriminate]);
    try (split; [auto | reflexivity]).
  - destruct s; split; try discriminate; intros [K|K]; discriminate.
  - destruct elems; split; try discriminate; intros [K|K]; discriminate.
Qed.

(** The token expression throws exactly when [data], or [data.choices], is
    [null] or [undefined]. *)
Lemma delta_content_throws (data : JsVal) :
  delta_content data = Throw
  <-> (data = JUndefined \/ data = JNull
       \/ get_member data (js "choices") = Normal JUndefined
       \/ get_member data (js "choices") = Normal JNull).
Proof.
  unfold delta_content.
  destruct (get_member data (js "choices")) as [ch|] eqn:Ec; cbn [bindC].
  - destruct (get_index0 ch) as [first|] eqn:Ef; cbn [bindC].
    + destruct (opt_member_normal first (js "delta")) as [delta ->].
      cbn [bindC].
      destruct (opt_member_normal delta (js "content")) as [c ->].
      cbn [bindC]. split; [discriminate|].
      intros [->|[->|[K|K]]]; try discriminate Ec;
        injection K as ->; discriminate Ef.
    + apply get_index0_throw in Ef. split; [intros _|reflexivity].
      destruct Ef as [->| ->]; auto.
  - split; [intros _|reflexivity].
    destruct data; try discriminate Ec; auto.
Qed.

(** X14. The token expression throws exactly when [data], or
    [data.choices], is [null] or [undefined].  Over an object whose
    [choices] is an array it gives the empty string when the array is
    empty, when its first element is an object without [delta], and when
    that [delta] is an object whose [content] is missing or [null]; and it
    gives the string itself when the [content] is a string. *)
Theorem delta_content_outcomes (data : JsVal) :
  (delta_content data = Throw
   <-> (data = JUndefined \/ data = JNull
        \/ get_member data (js "choices") = Normal JUndefined
        \/ get_member data (js "choices") = Normal JNull))
  /\ (forall props,
        data = JObj props ->
        own_prop (js "choices") props = Some (JArr []) ->
        delta_content data = Normal (JStr []))
  /\ (forall props first rest,
        data = JObj props ->
        own_prop (js "choices") props = Some (JArr (JObj first :: rest)) ->
        (own_prop (js "delta") first = None ->
         delta_content data = Normal (JStr []))
        /\ (forall delta,
              own_prop (js "delta") first = Some (JObj delta) ->
              (own_prop (js "content") delta = None ->
               delta_content data = Normal (JStr []))
              /\ (own_prop (js "content") delta = Some JNull ->
                  delta_content data = Normal (JStr []))
              /\ (forall f,
                    own_prop (js "content") delta = Some (JStr f) ->
                    delta_content data = Normal (JStr f)))).
Proof.
  split; [apply delta_content_throws|]. split.
  - intros props -> Hc. unfold delta_content.
    cbn [get_member bindC]. rewrite Hc. reflexivity.
  - intros props first rest -> Hc.
    assert (E : delta_content (JObj props)
                = (content <- opt_member
                                (match own_prop (js "delta") first with
                                 | Some w => w
                                 | None => JUndefined
                                 end) (js "content") ;;
                   Normal (if truthy content then content else JStr []))).
    { unfold delta_content. cbn [get_member bindC]. rewrite Hc.
      reflexivity. }
    split.
    + intros Hd. rewrite E, Hd. reflexivity.
    + intros delta Hd. rewrite E, Hd. cbn [opt_member get_member bindC].
      split; [|split].
      * intros Hf. rewrite Hf. reflexivity.
      * intros Hf. rewrite Hf. reflexivity.
      * intros f Hf. rewrite Hf. cbn [truthy]. destruct f; reflexivity.
Qed.

Lemma parse_chars_plain (f r : jsstring) :
  Forall (fun c => plain c = true) f ->
  parse_chars (f ++ 34 :: r) = Some (f, r).
Proof.
  induction 1 as [|c f Hc _ IH]; [reflexivity|].
  cbn [app parse_chars]. unfold plain in Hc.
  apply andb_true_iff in Hc as [Hc H92].
  apply andb_true_iff in Hc as [H32 H34].
  apply negb_true_iff in H34, H92. apply N.leb_le in H32.
  rewrite H34, H92.
  destruct (N.ltb_spec c 32) as [K|_]; [lia|]. now rewrite IH.
Qed.

Lemma json_ws_cases (c : N) :
  is_json_ws c = true -> c = 32 \/ c = 9 \/ c = 10 \/ c = 13.
Proof.
  unfold is_json_ws. intros H.
  repeat (apply orb_true_iff in H as [H|H]); apply N.eqb_eq in H; auto.
Qed.

(** A value does not start with whitespace. *)
Lemma parse_value_head (n : nat) (s : jsstring) (x : JsVal * jsstring) :
  parse_value n s = Some x -> skip_ws s = s.
Proof.
  destruct n as [|n]; [discriminate|]. destruct s as [|c r]; [reflexivity|].
  intros H. cbn [skip_ws]. destruct (is_json_ws c) eqn:Hc; [|reflexivity].
  exfalso. destruct (json_ws_cases c Hc) as [->|[->|[->| ->]]];
    discriminate H.
Qed.

(** An object with one member whose key is plain. *)
Lemma parse_object_one (n : nat) (k s r : jsstring) (v : JsVal) :
  Forall (fun c => plain c = true) k ->
  parse_value n s = Some (v, 125 :: r) ->
  parse_value (S (S n)) (123 :: 34 :: k ++ 34 :: 58 :: s)
  = Some (JObj [(k, v)], r).
Proof.
  intros Hk Hv.
  cbn [parse_value parse_members value_step]. cbn.
  unfold members_step. cbn [skip_ws is_json_ws]. cbn.
  rewrite (parse_chars_plain k _ Hk). cbn.
  rewrite (parse_value_head _ _ _ Hv), Hv. reflexivity.
Qed.

(** An array with one element. *)
Lemma parse_array_one (n : nat) (s r : jsstring) (v : JsVal) :
  parse_value n s = Some (v, 93 :: r) ->
  parse_value (S (S n)) (91 :: s) = Some (JArr [v], r).
Proof.
  intros Hv.
  pose proof (parse_value_head _ _ _ Hv) as Hs.
  cbn [parse_value parse_elements value_step]. cbn. rewrite Hs.
  destruct s as [|c vt]; [destruct n; discriminate|].
  destruct (N.eqb_spec c 93) as [->|Hc].
  { exfalso. destruct n; [discriminate|]. discriminate Hv. }
  unfold elements_step. rewrite Hs, Hv. reflexivity.
Qed.

Lemma parse_string_plain (n : nat) (f r : jsstring) :
  Forall (fun c => plain c = true) f ->
  parse_value (S n) (34 :: f ++ 34 :: r) = Some (JStr f, r).
Proof.
  intros Hf. cbn [parse_value value_step]. cbn.
  now rewrite (parse_chars_plain f r Hf).
Qed.

(** The payload of a record made from plain text parses, and its token is
    that text. *)
Lemma record_fragment_plain (f : jsstring) :
  Forall (fun c => plain c = true) f ->
  record_fragment (substring_from 6 (delta_record_of f)) = f.
Proof.
  intros Hf. unfold record_fragment.
  assert (E : JSON_parse (substring_from 6 (delta_record_of f))
              = Some (JObj [(js "choices",
                             JArr [JObj [(js "delta",
                                          JObj [(js "content", JStr f)])]])])).
  { apply (JSON_parse_complete 9 _ []); [|reflexivity].
    change (skip_ws (substring_from 6 (delta_record_of f)))
      with (123 :: 34 :: js "choices" ++ 34 :: 58
            :: 91 :: 123 :: 34 :: js "delta" ++ 34 :: 58
            :: 123 :: 34 :: js "content" ++ 34 :: 58
            :: 34 :: f ++ 34 :: [125; 125; 93; 125]).
    apply parse_object_one; [repeat constructor|].
    apply parse_array_one.
    apply parse_object_one; [repeat constructor|].
    apply parse_object_one; [repeat constructor|].
    apply (parse_string_plain 0 f _ Hf). }
  rewrite E. cbn. destruct f; reflexivity.
Qed.

End Tokens.

(** ** Whole streams, and the rest of the class *)

Section Rest.
Context {B : Browser}.

Lemma plain_no_lf (f : jsstring) :
  Forall (fun c => plain c = true) f -> Forall (fun c => c <> 10) f.
Proof.
  apply Forall_impl. intros c H ->. discriminate H.
Qed.

Lemma delta_record_of_chunk (f : jsstring) :
  Forall (fun c => plain c = true) f ->
  chunk_fragments (split_nn (delta_record_of f ++ nn)) = [f].
Proof.
  intros Hf.
  assert (Hx : Forall (fun c => c <> 10) (delta_record_of f)).
  { unfold delta_record_of. apply Forall_app. split.
    - repeat constructor; discriminate.
    - apply Forall_app. split; [now apply plain_no_lf|].
      repeat constructor; discriminate. }
  pose proof (split_nn_piece (delta_record_of f) [] Hx) as E.
  rewrite app_nil_r in E. rewrite E.
  change (split_nn []) with [@nil N].
  cbn [chunk_fragments].
  change (startsWith (delta_record_of f) (js "data: ")) with true.
  cbv beta iota.
  assert (Hd : jsstring_eqb (trim (substring_from 6 (delta_record_of f)))
                 (js "[DONE]") = false).
  { apply jsstring_eqb_neq. intros Ht.
    destruct (trim_split (substring_from 6 (delta_record_of f)))
      as (w1 & w2 & E1 & F1 & _).
    rewrite Ht in E1.
    change (substring_from 6 (delta_record_of f))
      with (123 :: skipn 7 (delta_record_of f)) in E1.
    destruct w1 as [|c w1]; [discriminate E1|].
    injection E1 as <- _. inversion F1 as [|? ? K _]. discriminate K. }
  rewrite Hd, (record_fragment_plain f Hf). reflexivity.
Qed.

(** X15. For every list of fragments of plain text (no control
    character, quote or backslash), empty fragments included: when each is
    streamed as a delta record in a chunk of its own and the end marker
    follows, the committed text is the concatenation of the fragments in the
    order of arrival. *)
Theorem plain_fragments_concatenate (fragments : list jsstring)
  (t target now : nat) (fr : jsstring) (a : ChatApp) :
  Forall (Forall (fun c => plain c = true)) fragments ->
  nth_error (tasks a) t = Some (AwaitRead target fr) ->
  messages
    (run a
       (body_inputs t
          (map (fun f => delta_record_of f ++ nn) fragments
           ++ [done_record ++ nn]) now))
  = messages a ++ committed (fr ++ concat fragments) now.
Proof.
  intros Hf H.
  destruct (run_body (map (fun f => delta_record_of f ++ nn) fragments
                      ++ [done_record ++ nn]) t target fr now a H)
    as (E & _).
  rewrite E. do 3 f_equal. unfold stream_fragments.
  rewrite flat_map_app.
  change (flat_map (fun c => chunk_fragments (split_nn c))
            [done_record ++ nn]) with (@nil jsstring).
  rewrite app_nil_r. clear E H.
  induction Hf as [|f rest Hx _ IH]; [reflexivity|].
  cbn [map flat_map]. rewrite (delta_record_of_chunk f Hx).
  cbn [app concat]. now rewrite IH.
Qed.

(** X16. What an accepted submission logs is the input without its
    surrounding whitespace: the entry has the role [user], its content is
    not empty and is its own trimming, and the input field is left empty. *)
Theorem logged_user_message_trimmed (now : nat) (a : ChatApp) :
  can_send a = true ->
  exists m,
    messages (sendMessage now a) = messages a ++ [m]
    /\ role m = js "user"
    /\ content m = trim (messageInput_value a)
    /\ content m <> []
    /\ trim (content m) = content m
    /\ messageInput_value (sendMessage now a) = [].
Proof.
  intros G. destruct (can_send_true a G) as [G1 G2].
  destruct (sendMessage_accepted now a G1 G2) as (E & _).
  exists (mkMessage (trim (messageInput_value a)) (js "user") now).
  cbn [role content]. repeat split; auto using trim_trim.
  unfold sendMessage. apply jsstring_eqb_neq in G2. now rewrite G2, G1.
Qed.

(** X17. The request an accepted submission issues and the request of
    the non-streaming [getAIResponse], called with the trimmed input on the
    state before the submission, go to the same address and carry the same
    model, conversation and sampling constants; they differ in the [stream]
    flag only. *)
Theorem sendMessage_request_matches_getAIResponse (now : nat)
  (a : ChatApp) :
  can_send a = true ->
  exists u b,
    requests (sendMessage now a) = requests a ++ [Fetch u b]
    /\ rb_stream b = true
    /\ getAIResponse_request (trim (messageInput_value a)) a
       = Fetch u (mkRequestBody (rb_model b) (rb_messages b)
                    (rb_temperature b) (rb_max_tokens b) false).
Proof.
  intros G. eexists. eexists. split; [|split].
  - rewrite (sendMessage_request now a G). unfold streaming_request.
    reflexivity.
  - reflexivity.
  - reflexivity.
Qed.

(** X18. The non-streaming reply throws when the status is not a
    success, when the body is not JSON, and when the body is an object
    whose [choices] is missing or an empty array; on a body with empty
    [choices] the streaming token expression gives the empty token
    instead. *)
Theorem getAIResponse_failures (status : N) (body : jsstring) :
  (response_ok status = false -> getAIResponse_result status body = Throw)
  /\ (JSON_parse body = None -> getAIResponse_result status body = Throw)
  /\ (forall props,
        JSON_parse body = Some (JObj props) ->
        own_prop (js "choices") props = None
        \/ own_prop (js "choices") props = Some (JArr []) ->
        getAIResponse_result status body = Throw)
  /\ (forall props,
        own_prop (js "choices") props = Some (JArr []) ->
        delta_content (JObj props) = Normal (JStr [])).
Proof.
  unfold getAIResponse_result. repeat split.
  - now intros ->.
  - intros ->. now destruct (response_ok status).
  - intros props -> Hc. destruct (response_ok status); [|reflexivity].
    unfold message_content. cbn [get_member].
    destruct Hc as [-> | ->]; reflexivity.
  - intros props Hc. unfold delta_content. cbn [get_member].
    rewrite Hc. reflexivity.
Qed.

Lemma first_word_app (w rest : jsstring) :
  Forall (fun c => c <> 32) w ->
  first_word (w ++ rest) = w ++ first_word rest.
Proof.
  induction 1 as [|c w Hc _ IH]; [reflexivity|].
  cbn [app first_word]. apply N.eqb_neq in Hc. now rewrite Hc, IH.
Qed.

(** X19. When the class of a highlighted [<code>] starts with
    [language-] followed by a name without a space, alone or followed by a
    space and further classes, the language label shows that name. *)
Theorem lang_label_is_fence_language (c : CodeElem) (lang rest : jsstring) :
  Forall (fun x => x <> 32) lang ->
  className c = js "language-" ++ lang ++ rest ->
  rest = [] \/ (exists r, rest = 32 :: r) ->
  e_textContent (langIndicator c) = lang.
Proof.
  intros Hl Hc Hr. unfold langIndicator. cbn [e_textContent]. rewrite Hc.
  rewrite app_assoc, first_word_app.
  - assert (Er : first_word rest = []).
    { destruct Hr as [->|[r ->]]; reflexivity. }
    rewrite Er, app_nil_r. reflexivity.
  - apply Forall_app. split; [|exact Hl].
    repeat constructor; discriminate.
Qed.

Lemma list_set_same {A : Type} (l : list A) (i : nat) (x : A) :
  nth_error l i = Some x -> list_set i x l = l.
Proof.
  revert i; induction l as [|y l IH]; intros [|i]; simpl; try discriminate.
  - now intros [= ->].
  - intros H. now rewrite IH.
Qed.

Lemma highlight_blocks_prose (bs : list Block) :
  Forall (fun b => match b with
                   | Prose _ => True
                   | Fence _ => False
                   end) bs ->
  highlight_blocks bs = bs /\ highlight_calls bs = [].
Proof.
  induction 1 as [|b bs Hb _ [IH1 IH2]]; [split; reflexivity|].
  destruct b as [p|h]; [contradiction|]. split; [|exact IH2].
  unfold highlight_blocks in *. cbn [map]. now rewrite IH1.
Qed.

(** X20. Over a bubble without a fenced region, and over an address
    that holds no bubble, the code-block pass changes nothing at all: no
    highlighter call, no element added. *)
Theorem highlightCodeBlocks_without_code (c : nat) (a : ChatApp) :
  (forall bs, nth_error (contents a) c = Some bs ->
              Forall (fun b => match b with
                               | Prose _ => True
                               | Fence _ => False
                               end) bs) ->
  highlightCodeBlocks c a = a.
Proof.
  intros H. unfold highlightCodeBlocks.
  destruct (nth_error (contents a) c) as [bs|] eqn:E; [|reflexivity].
  destruct (highlight_blocks_prose bs (H bs eq_refl)) as [E1 E2].
  rewrite E1, E2. cbn [contents set_contents effects messages isTyping
    chatMessages messageInput_value messageInput_height sendButton_disabled
    typingIndicator_display lmStudioUrl_value modelName_value tasks].
  rewrite (list_set_same _ _ _ E), app_nil_r. destruct a; reflexivity.
Qed.

End Rest.

(** ** Runs of the sample page, continued *)

Lemma split_join_nn_witness :
  [js "a"; js "b"] <> []
  /\ Forall (Forall (fun c => c <> 10)) [js "a"; js "b"]
  /\ split_nn (join_nn [js "a"; js "b"]) = [js "a"; js "b"].
Proof.
  assert (F : Forall (Forall (fun c => c <> 10)) [js "a"; js "b"])
    by (repeat constructor; discriminate).
  split; [discriminate|]. split; [exact F|].
  apply (split_join_nn [js "a"; js "b"]); [discriminate | exact F].
Defined.

Lemma log_append_only_witness :
  ReadDone 0 3 <> ClearShortcut
  /\ exists l,
       messages (step (B := sample_browser) streaming_session (ReadDone 0 3))
       = messages streaming_session ++ l
       /\ (List.length l <= 1)%nat.
Proof.
  split; [discriminate|].
  apply (log_append_only (B := sample_browser) streaming_session
           (ReadDone 0 3)).
  discriminate.
Defined.

Lemma send_control_follows_flag_witness :
  let inputs := [ChunkRead 0 (delta_record "x" ++ nn); ReadRejected 0 3;
                 TypeText (js "again") []; Submit 4] in
  sendButton_disabled streaming_session = isTyping streaming_session
  /\ sendButton_disabled (run (B := sample_browser) streaming_session inputs)
     = isTyping (run (B := sample_browser) streaming_session inputs).
Proof.
  intros inputs. split; [vm_compute; reflexivity|].
  apply (send_control_follows_flag (B := sample_browser) streaming_session
           inputs).
  vm_compute; reflexivity.
Defined.

Lemma apology_is_sent_next_witness :
  trim (js " retry ") <> []
  /\ (let a1 := sendMessage_catch (B := sample_browser) 3 used_session in
      requests (run (B := sample_browser) a1
                  [TypeText (js " retry ") []; Submit 4])
      = requests used_session
        ++ [Fetch
              (or_default (lmStudioUrl_value used_session)
                 (js "http://localhost:1234")
               ++ js "/v1/chat/completions")
              (mkRequestBody
                 (or_default (modelName_value used_session) (js "default"))
                 ((js "system", systemPrompt)
                  :: snapshot used_session
                     ++ [(js "assistant", errorText);
                         (js "user", trim (js " retry "))])
                 (js "0.7") 1000 true)]).
Proof.
  split; [vm_compute; discriminate|].
  apply (apology_is_sent_next (B := sample_browser) 3 4 (js " retry ") []
           used_session).
  vm_compute; discriminate.
Defined.

Lemma bubble_shows_final_buffer_witness :
  let chunks := [delta_record "Hel" ++ nn; delta_record "lo" ++ nn] in
  nth_error (tasks streaming_session) 0 = Some (AwaitRead 1 [])
  /\ (1 < List.length (contents streaming_session))%nat
  /\ concat (stream_fragments (B := sample_browser) chunks) <> []
  /\ nth_error
       (contents (run (B := sample_browser) streaming_session
                    (body_inputs 0 chunks 3))) 1
     = Some (highlight_blocks (B := sample_browser)
               (marked_parse (Browser := sample_browser)
                  ([] ++ concat (stream_fragments (B := sample_browser)
                                   chunks)))).
Proof.
  intros chunks.
  split; [vm_compute; reflexivity|]. split; [vm_compute; lia|].
  split; [vm_compute; discriminate|].
  apply (bubble_shows_final_buffer (B := sample_browser) chunks 0 1 [] 3
           streaming_session);
    [vm_compute; reflexivity | vm_compute; lia | vm_compute; discriminate].
Defined.

Lemma read_failure_drops_partial_text_witness :
  let chunks := [delta_record "Hel" ++ nn] in
  nth_error (tasks streaming_session) 0 = Some (AwaitRead 1 [])
  /\ (1 < List.length (contents streaming_session))%nat
  /\ (let a' := run (B := sample_browser) streaming_session
                  (map (ChunkRead 0) chunks ++ [ReadRejected 0 3]) in
      messages a'
      = messages streaming_session
        ++ [mkMessage errorText (js "assistant") 3%nat]
      /\ isTyping a' = false
      /\ nth_error (tasks a') 0 = Some Settled
      /\ (concat (stream_fragments (B := sample_browser) chunks) <> [] ->
          nth_error (contents a') 1
          = Some (marked_parse (Browser := sample_browser)
                    ([] ++ concat (stream_fragments (B := sample_browser)
                                     chunks))))).
Proof.
  intros chunks.
  split; [vm_compute; reflexivity|]. split; [vm_compute; lia|].
  apply (read_failure_drops_partial_text (B := sample_browser) chunks 0 1 []
           3 streaming_session);
    [vm_compute; reflexivity | vm_compute; lia].
Defined.

Lemma clear_does_not_cancel_stream_witness :
  let chunks := [delta_record "Hel" ++ nn; done_record ++ nn] in
  nth_error (tasks streaming_session) 0 = Some (AwaitRead 1 [])
  /\ (1 < List.length (contents streaming_session))%nat
  /\ (let a' := run (B := sample_browser) streaming_session
                  (ClearShortcut :: body_inputs 0 chunks 3) in
      messages a'
      = committed ([] ++ concat (stream_fragments (B := sample_browser)
                                   chunks)) 3
      /\ nth_error (tasks a') 0 = Some Settled
      /\ chatMessages a'
         = [mkMessageElement (js "message assistant") (js "AI")
              (List.length (contents streaming_session))]
      /\ Forall (fun m => m_content m <> 1%nat) (chatMessages a')).
Proof.
  intros chunks.
  split; [vm_compute; reflexivity|]. split; [vm_compute; lia|].
  apply (clear_does_not_cancel_stream (B := sample_browser) chunks 0 1 [] 3
           streaming_session);
    [vm_compute; reflexivity | vm_compute; lia].
Defined.

Lemma empty_completion_logs_nothing_witness :
  let chunks := [jq "data: {'choices':[{'delta':{'role':'assistant'}}]}" ++ nn;
                 jq "data: {'choices':[]}" ++ nn; done_record ++ nn] in
  nth_error (tasks streaming_session) 0 = Some (AwaitRead 1 [])
  /\ concat (stream_fragments (B := sample_browser) chunks) = []
  /\ (messages (run (B := sample_browser) streaming_session
                  (body_inputs 0 chunks 3))
      = messages streaming_session
      /\ chatMessages (run (B := sample_browser) streaming_session
                         (body_inputs 0 chunks 3))
         = chatMessages streaming_session
      /\ nth_error (tasks (run (B := sample_browser) streaming_session
                             (body_inputs 0 chunks 3))) 0
         = Some Settled).
Proof.
  intros chunks.
  split; [vm_compute; reflexivity|]. split; [vm_compute; reflexivity|].
  apply (empty_completion_logs_nothing (B := sample_browser) chunks 0 1 3
           streaming_session); vm_compute; reflexivity.
Defined.

Lemma unprefixed_line_ignored_witness :
  let x := jq "data:{'choices':[{'delta':{'content':'no space'}}]}" in
  startsWith x (js "data: ") = false
  /\ for_lines (B := sample_browser) 1
       ([delta_record "a"] ++ x :: [delta_record "b"]) [] streaming_session
     = for_lines (B := sample_browser) 1
         ([delta_record "a"] ++ [delta_record "b"]) [] streaming_session.
Proof.
  intros x. split; [vm_compute; reflexivity|].
  apply (unprefixed_line_ignored (B := sample_browser) 1 [delta_record "a"]
           [delta_record "b"] x [] streaming_session).
  vm_compute; reflexivity.
Defined.

Lemma delta_content_outcomes_witness :
  let first := [(js "delta", JObj [(js "role", JStr (js "assistant"))])] in
  let data := JObj [(js "choices", JArr [JObj first])] in
  own_prop (js "choices") [(js "choices", JArr [JObj first])]
  = Some (JArr [JObj first])
  /\ own_prop (js "delta") first
     = Some (JObj [(js "role", JStr (js "assistant"))])
  /\ own_prop (js "content") [(js "role", JStr (js "assistant"))] = None
  /\ delta_content (B := sample_browser) data = Normal (JStr []).
Proof.
  intros first data.
  assert (H1 : own_prop (js "choices") [(js "choices", JArr [JObj first])]
               = Some (JArr [JObj first])) by reflexivity.
  assert (H2 : own_prop (js "delta") first
               = Some (JObj [(js "role", JStr (js "assistant"))]))
    by reflexivity.
  assert (H3 : own_prop (js "content") [(js "role", JStr (js "assistant"))]
               = None) by reflexivity.
  refine (conj H1 (conj H2 (conj H3 _))).
  exact (proj1 (proj2 (proj2 (proj2 (delta_content_outcomes
                                       (B := sample_browser) data))
                                _ first [] eq_refl H1)
                        _ H2) H3).
Defined.

Lemma plain_fragments_concatenate_witness :
  let fragments := [js "Hel"; []; js "lo, "; js "world!"] in
  Forall (Forall (fun c => plain c = true)) fragments
  /\ nth_error (tasks streaming_session) 0 = Some (AwaitRead 1 [])
  /\ messages
       (run (B := sample_browser) streaming_session
          (body_inputs 0
             (map (fun f => delta_record_of f ++ nn) fragments
              ++ [done_record ++ nn]) 3))
     = messages streaming_session
       ++ committed ([] ++ concat fragments) 3.
Proof.
  intros fragments.
  assert (F : Forall (Forall (fun c => plain c = true)) fragments)
    by (repeat constructor).
  split; [exact F|]. split; [vm_compute; reflexivity|].
  apply (plain_fragments_concatenate (B := sample_browser) fragments 0 1 3 []
           streaming_session); [exact F | vm_compute; reflexivity].
Defined.

Lemma logged_user_message_trimmed_witness :
  let a := set_messageInput (js "  hello there ") [] used_session in
  can_send a = true
  /\ exists m,
       messages (sendMessage (B := sample_browser) 5 a) = messages a ++ [m]
       /\ role m = js "user"
       /\ content m = trim (messageInput_value a)
       /\ content m <> []
       /\ trim (content m) = content m
       /\ messageInput_value (sendMessage (B := sample_browser) 5 a) = [].
Proof.
  intros a. split; [vm_compute; reflexivity|].
  apply (logged_user_message_trimmed (B := sample_browser) 5 a).
  vm_compute; reflexivity.
Defined.

Lemma sendMessage_request_matches_getAIResponse_witness :
  let a := set_messageInput (js "hello") [] used_session in
  can_send a = true
  /\ exists u b,
       requests (sendMessage (B := sample_browser) 5 a)
       = requests a ++ [Fetch u b]
       /\ rb_stream b = true
       /\ getAIResponse_request (trim (messageInput_value a)) a
          = Fetch u (mkRequestBody (rb_model b) (rb_messages b)
                       (rb_temperature b) (rb_max_tokens b) false).
Proof.
  intros a. split; [vm_compute; reflexivity|].
  apply (sendMessage_request_matches_getAIResponse (B := sample_browser) 5 a).
  vm_compute; reflexivity.
Defined.

Lemma lang_label_is_fence_language_witness :
  let c := sample_hljs (code sample_fence) in
  Forall (fun x => x <> 32) (js "js")
  /\ className c = js "language-" ++ js "js" ++ js " hljs"
  /\ (js " hljs" = [] \/ (exists r, js " hljs" = 32 :: r))
  /\ e_textContent (langIndicator c) = js "js".
Proof.
  intros c.
  assert (F : Forall (fun x => x <> 32) (js "js"))
    by (repeat constructor; discriminate).
  assert (R : js " hljs" = [] \/ (exists r, js " hljs" = 32 :: r))
    by (right; eexists; reflexivity).
  split; [exact F|]. split; [reflexivity|]. split; [exact R|].
  apply (lang_label_is_fence_language c (js "js") (js " hljs"));
    [exact F | reflexivity | exact R].
Defined.

Lemma highlightCodeBlocks_without_code_witness :
  (forall bs, nth_error (contents streaming_session) 0 = Some bs ->
              Forall (fun b => match b with
                               | Prose _ => True
                               | Fence _ => False
                               end) bs)
  /\ highlightCodeBlocks (B := sample_browser) 0 streaming_session
     = streaming_session.
Proof.
  assert (H : forall bs,
             nth_error (contents streaming_session) 0 = Some bs ->
             Forall (fun b => match b with
                              | Prose _ => True
                              | Fence _ => False
                              end) bs).
  { intros bs E. vm_compute in E. injection E as <-. repeat constructor. }
  split; [exact H|].
  apply (highlightCodeBlocks_without_code (B := sample_browser) 0
           streaming_session H).
Defined.
